(** * Chain Tracker: the reconciliation engine of [js/app.js]

    A shallow embedding of the parser, aggregator, paginator, merger and
    sync orchestrator of the chain tracker, and the properties its
    specification states about them; then of the code around the engine
    (the store of [js/db.js], the rate limiter and fetch client of
    [js/api.js], the callers of the sync in [js/app.js] and the member
    table of [js/ui.js]) with further properties read off that code.

    Modelling conventions.
    - A dynamically typed field is a [Js.value]: [undefined], [null], a
      number or a string.  Numbers are the integers (exact in the runtime
      below 2^53); strings are sequences of code units below 256, so the
      white space of [trim] and [\s] is 9-13, 32 and 160.
    - A JS object used as a dictionary is a [gmap string _], so a key is
      looked up among the object's own properties only (actor keys that
      name a property of [Object.prototype] are outside the model); a
      [Set] is the list of its elements in insertion order, which is what
      [Array.from] persists.
    - Message fields ([news], [text], [content]) are strings when present;
      an attacker's [attacks] and [respect] are a number or an object with
      a numeric [total]; a page is read as its list of items and its
      previous-page cursor.
    - The runtime's [JSON.stringify] and its string-to-number conversion
      are parameters of the development, as are [localeCompare] and the
      division behind the member table, and the clock is an input of a
      sync.  The [while (true)] loop of the paginator runs on fuel; running
      out of it is the outcome [Pending]. *)

From Stdlib Require Import ZArith Ascii Qcanon.
From Stdlib Require String.
From stdpp Require Import gmap strings pretty list sorting.

Local Open Scope Z_scope.

(** ** The fragment of the JS runtime the engine uses *)

Module Js.

Inductive value : Type :=
  | Undefined
  | Null
  | Num (n : Z)
  | Str (s : string).

#[global] Instance value_eq_dec : EqDecision value.
Proof. solve_decision. Defined.

Definition value_to_sum (v : value) : (unit + unit) + (Z + string) :=
  match v with
  | Undefined => inl (inl ())
  | Null => inl (inr ())
  | Num n => inr (inl n)
  | Str s => inr (inr s)
  end.

Definition value_of_sum (x : (unit + unit) + (Z + string)) : value :=
  match x with
  | inl (inl _) => Undefined
  | inl (inr _) => Null
  | inr (inl n) => Num n
  | inr (inr s) => Str s
  end.

#[global] Instance value_countable : Countable value :=
  inj_countable' value_to_sum value_of_sum
    (λ v, match v with
          | Undefined => eq_refl
          | Null => eq_refl
          | Num _ => eq_refl
          | Str _ => eq_refl
          end).

(** [v == null]: true of [null] and [undefined] only. *)
Definition nullish (v : value) : bool :=
  match v with
  | Undefined | Null => true
  | _ => false
  end.

(** [a ?? b] *)
Definition coalesce (a b : value) : value :=
  if nullish a then b else a.

(** [a ?? b] where [a] is an optional field of a fixed type. *)
Definition or_else {A} (a b : option A) : option A :=
  match a with
  | Some _ => a
  | None => b
  end.

(** ToBoolean *)
Definition truthy (v : value) : bool :=
  match v with
  | Undefined | Null => false
  | Num n => negb (n =? 0)
  | Str s => negb (String.eqb s EmptyString)
  end.

(** ToString, as template literals and [String(v)] apply it. *)
Definition ToString (v : value) : string :=
  match v with
  | Undefined => "undefined"
  | Null => "null"
  | Num n => pretty n
  | Str s => s
  end.

Section Relational.
(** StringToNumber of the runtime; [None] is NaN. *)
Variable StringToNumber : string → option Z.

Definition ToNumber (v : value) : option Z :=
  match v with
  | Undefined => None
  | Null => Some 0
  | Num n => Some n
  | Str s => StringToNumber s
  end.

(** [a < b]: two strings compare by code units, anything else by
    ToNumber, and a comparison with NaN is false. *)
Definition lt (a b : value) : bool :=
  match a, b with
  | Str s, Str t => String.ltb s t
  | _, _ =>
      match ToNumber a, ToNumber b with
      | Some x, Some y => x <? y
      | _, _ => false
      end
  end.

(** [a > b] *)
Definition gt (a b : value) : bool := lt b a.
End Relational.

(** *** Strings *)

Definition isWhiteSpace (c : ascii) : bool :=
  let n := nat_of_ascii c in
  ((9 <=? n) && (n <=? 13) || (n =? 32) || (n =? 160))%nat.

Definition isDigit (c : ascii) : bool :=
  let n := nat_of_ascii c in ((48 <=? n) && (n <=? 57))%nat.

(** Canonicalize of a case-insensitive regular expression without the
    unicode flag.  The patterns of the engine are ASCII, and no code unit
    above 127 canonicalizes to an ASCII one, so for matching against them it
    is enough to upper-case a-z. *)
Definition canonicalize (c : ascii) : ascii :=
  let n := nat_of_ascii c in
  if ((97 <=? n) && (n <=? 122))%nat then ascii_of_nat (n - 32) else c.

Fixpoint trimStart (s : string) : string :=
  match s with
  | EmptyString => EmptyString
  | String c r => if isWhiteSpace c then trimStart r else s
  end.

Fixpoint trimEnd (s : string) : string :=
  match s with
  | EmptyString => EmptyString
  | String c r =>
      match trimEnd r with
      | EmptyString => if isWhiteSpace c then EmptyString else String c EmptyString
      | r' => String c r'
      end
  end.

(** [s.trim()] *)
Definition trim (s : string) : string := trimEnd (trimStart s).

Fixpoint startsWith (p s : string) : bool :=
  match p, s with
  | EmptyString, _ => true
  | String a p', String b s' => Ascii.eqb a b && startsWith p' s'
  | String _ _, EmptyString => false
  end.

(** [s.indexOf(needle)], -1 when there is no occurrence. *)
Fixpoint indexOf (needle s : string) {struct s} : Z :=
  if startsWith needle s then 0
  else match s with
       | EmptyString => -1
       | String _ r => let k := indexOf needle r in if k <? 0 then -1 else k + 1
       end.

(** [s.includes(needle)] *)
Definition includes (needle s : string) : bool := 0 <=? indexOf needle s.

(** [s.slice(b, e)]: a negative index counts from the end. *)
Definition slice (s : string) (b e : Z) : string :=
  let len := Z.of_nat (String.length s) in
  let clamp i := if i <? 0 then Z.max (len + i) 0 else Z.min i len in
  let from := clamp b in
  let to := clamp e in
  String.substring (Z.to_nat from) (Z.to_nat (to - from)) s.

(** Is there a [>] in [s]? *)
Fixpoint hasGt (s : string) : bool :=
  match s with
  | EmptyString => false
  | String c r => Ascii.eqb c ">"%char || hasGt r
  end.

(** Does [/[^>]+>/] match at the start of [s], the text after a [<]? *)
Definition tagCloses (s : string) : bool :=
  match s with
  | EmptyString => false
  | String c r => negb (Ascii.eqb c ">"%char) && hasGt r
  end.

(** [s.replace(/<[^>]+>/g, repl)], read left to right: [inTag] holds while
    the characters of a matched tag are being dropped. *)
Fixpoint replaceTagsFrom (inTag : bool) (repl s : string) : string :=
  match s with
  | EmptyString => EmptyString
  | String c r =>
      if inTag then
        if Ascii.eqb c ">"%char then repl +:+ replaceTagsFrom false repl r
        else replaceTagsFrom true repl r
      else if Ascii.eqb c "<"%char && tagCloses r then replaceTagsFrom true repl r
      else String c (replaceTagsFrom false repl r)
  end.

Definition replaceTags (repl s : string) : string := replaceTagsFrom false repl s.

(** [s.split(/\s+/)]: the pieces between the maximal runs of white space;
    [prevWs] says that the character before [s] was white space. *)
Fixpoint splitWsFrom (prevWs : bool) (s : string) : list string :=
  match s with
  | EmptyString => [EmptyString]
  | String c r =>
      if isWhiteSpace c then
        if prevWs then splitWsFrom true r else EmptyString :: splitWsFrom true r
      else match splitWsFrom false r with
           | p :: ps => String c p :: ps
           | [] => [String c EmptyString]
           end
  end.

Definition splitWs (s : string) : list string := splitWsFrom false s.

(** [.filter(Boolean)] on an array of strings *)
Definition filterBoolean (l : list string) : list string :=
  filter (λ w, w ≠ EmptyString) l.

(** Strips [p] from the front of [s], comparing canonicalized characters. *)
Fixpoint stripPrefixCI (p s : string) : option string :=
  match p, s with
  | EmptyString, _ => Some s
  | String a p', String b s' =>
      if Ascii.eqb (canonicalize a) (canonicalize b) then stripPrefixCI p' s'
      else None
  | String _ _, EmptyString => None
  end.

(** The longest prefix of [s] made of characters satisfying [f], and the rest. *)
Fixpoint span (f : ascii → bool) (s : string) : string * string :=
  match s with
  | EmptyString => (EmptyString, EmptyString)
  | String c r =>
      if f c then let '(a, b) := span f r in (String c a, b)
      else (EmptyString, s)
  end.

(** The text after the first [>] of [s], if there is one. *)
Fixpoint afterGt (s : string) : option string :=
  match s with
  | EmptyString => None
  | String c r => if Ascii.eqb c ">"%char then Some r else afterGt r
  end.

(** Is [s] made of decimal digits only? *)
Fixpoint allDigits (s : string) : bool :=
  match s with
  | EmptyString => true
  | String c r => isDigit c && allDigits r
  end.

Definition digitValue (c : ascii) : Z := Z.of_nat (nat_of_ascii c) - 48.

Fixpoint digitsValue (acc : Z) (s : string) : Z :=
  match s with
  | EmptyString => acc
  | String c r => digitsValue (10 * acc + digitValue c) r
  end.

(** [parseInt(s, 10)]: leading white space, an optional sign, then the
    longest run of decimal digits; [None] (NaN) when that run is empty.
    The value is the integer the digits write; the runtime's is the
    nearest double, the same up to 2^53. *)
Definition parseInt (s : string) : option Z :=
  let s := trimStart s in
  let '(neg, s) :=
    match s with
    | String "-"%char r => (true, r)
    | String "+"%char r => (false, r)
    | _ => (false, s)
    end in
  let '(ds, _) := span isDigit s in
  match ds with
  | EmptyString => None
  | _ => let n := digitsValue 0 ds in Some (if neg : bool then - n else n)
  end.

End Js.

Import Js.

(** ** Event parser *)

Definition dq : string := String (ascii_of_nat 34) EmptyString.

Definition XANAX_PHRASE : string := "used one of the faction's Xanax items".

(** [/used (\d+) faction points/gi] tried at the start of [s]: the digits
    of group 1 and the length of the match.  [\d+] is greedy, and giving a
    digit back cannot help, because a space has to follow the group. *)
Definition matchPointsAt (s : string) : option (string * nat) :=
  match stripPrefixCI "used " s with
  | None => None
  | Some r =>
      let '(ds, r') := span isDigit r in
      match ds with
      | EmptyString => None
      | _ =>
          match stripPrefixCI " faction points" r' with
          | None => None
          | Some _ => Some (ds, (5 + String.length ds + 15)%nat)
          end
      end
  end.

(** The loop [while ((match = regex.exec(text)) !== null)] on a fresh
    global regular expression: group 1 of every match, left to right.
    [skip] counts the characters still covered by the previous match, over
    which [lastIndex] has jumped. *)
Fixpoint execAllPoints (skip : nat) (s : string) : list string :=
  match s with
  | EmptyString => []
  | String _ r =>
      match skip with
      | S k => execAllPoints k r
      | O =>
          match matchPointsAt s with
          | Some (ds, len) => ds :: execAllPoints (pred len) r
          | None => execAllPoints O r
          end
      end
  end.

(** PROFILE_LINK_REGEX tried at the start of [s]: the literal
    [profiles.php?XID=] (case-insensitive), group 1 a greedy run of digits,
    then optionally any characters but [>], a [>], and group 2, a greedy
    run of characters other than [<].  The result is groups 1 and 2, the
    second [None] when the optional part did not take part in the match:
    its first run stops at the first [>] or at the end of the text, so it
    matches exactly when a [>] follows the digits. *)
Definition matchProfileAt (s : string) : option (string * option string) :=
  match stripPrefixCI "profiles.php?XID=" s with
  | None => None
  | Some r =>
      let '(ds, r') := span isDigit r in
      match ds with
      | EmptyString => None
      | _ =>
          Some (ds, match afterGt r' with
                    | Some a => Some (fst (span (λ c, negb (Ascii.eqb c "<"%char)) a))
                    | None => None
                    end)
      end
  end.

(** [text.match(PROFILE_LINK_REGEX)]: the leftmost match. *)
Fixpoint matchProfile (s : string) : option (string * option string) :=
  match matchProfileAt s with
  | Some m => Some m
  | None =>
      match s with
      | EmptyString => None
      | String _ r => matchProfile r
      end
  end.

Record Member := { member_id : string; member_name : string }.

Definition extractMemberName (text : string) : string :=
  let usedIdx := indexOf " used " text in
  if 0 <? usedIdx then trim (replaceTags EmptyString (slice text 0 usedIdx))
  else
    let words := filterBoolean (splitWs (replaceTags " " (trim text))) in
    match words with
    | w :: _ => w
    | [] => "Unknown"
    end.

(** [a || b] on strings *)
Definition str_or (a b : string) : string :=
  match a with
  | EmptyString => b
  | _ => a
  end.

Definition extractMemberIdAndName (text : string) : option Member :=
  match matchProfile text with
  | Some (g1, g2) =>
      let id := g1 in
      let name := str_or (trim (default EmptyString g2)) (extractMemberName text) in
      Some {| member_id := id; member_name := name |}
  | None =>
      let name := extractMemberName text in
      match name with
      | EmptyString => None
      | _ => Some {| member_id := name; member_name := name |}
      end
  end.

(** ** Data model *)

(** A raw feed item. *)
Record NewsItem := {
  item_timestamp : value;
  item_time : value;
  item_id : value;
  item_news : option string;
  item_text : option string;
  item_content : option string;
}.

(** An entry of the [xanax] result: [{ count, name }]. *)
Record XanaxEntry := { xanax_count : Z; xanax_name : string }.

(** An entry of the [points] result: [{ amount, name }]. *)
Record PointsEntry := { points_amount : Z; points_name : string }.

(** What [extractConsumption] returns: [{ xanax, points }]. *)
Record Consumption := {
  xanax : gmap string XanaxEntry;
  points : gmap string PointsEntry;
}.

(** An entry of [chain.consumption]: [{ xanax, points, name }]. *)
Record ConsumptionEntry := { cons_xanax : Z; cons_points : Z; cons_name : string }.

(** An entry of [chain.hits]: [{ hits, respect, name }]. *)
Record HitEntry := { hit_hits : Z; hit_respect : Z; hit_name : string }.

Record Totals := {
  total_hits : Z;
  total_respect : Z;
  total_xanax : Z;
  total_points : Z;
}.

Inductive Status := active | finished.

#[global] Instance Status_eq_dec : EqDecision Status.
Proof. solve_decision. Defined.

(** The persisted chain record; [end] is a keyword, hence [chain_end]. *)
Record ChainRecord := {
  chainId : value;
  chain_start : value;
  chain_end : value;
  status : Status;
  hits : gmap string HitEntry;
  consumption : gmap string ConsumptionEntry;
  totals : Totals;
  processedNewsIds : list value;
}.

(** *** [Set] of item ids, in insertion order *)

Definition Set_has (s : list value) (v : value) : bool := bool_decide (v ∈ s).

Definition Set_add (s : list value) (v : value) : list value :=
  if Set_has s v then s else s ++ [v].

(** [new Set(array)] *)
Definition Set_from (l : list value) : list value := fold_left Set_add l [].

(** [x || 0] on a number *)
Definition num_or_0 (x : Z) : Z := if x =? 0 then 0 else x.

(** ** Consumption aggregator *)

Section Aggregator.
Variable StringToNumber : string → option Z.
Variable JSON_stringify : NewsItem → string.

(** [addXanax(id, name)] and, below, [addPoints(id, amount, name)].  The
    lookup [xanax[id]] is read among the object's own entries; under a
    name that an object inherits (see [Object_prototype_names] below) the
    program finds a value that is no entry, which is outside the model. *)
Definition addXanax (id name : string) (xanax : gmap string XanaxEntry)
  : gmap string XanaxEntry :=
  match id with
  | EmptyString => xanax
  | _ =>
      let cur := default {| xanax_count := 0; xanax_name := name |} (xanax !! id) in
      <[id := {| xanax_count := xanax_count cur + 1;
                 xanax_name := str_or name (xanax_name cur) |}]> xanax
  end.

(** [amount] is what [parseInt] gave, [None] for NaN. *)
Definition addPoints (id : string) (amount : option Z) (name : string)
    (points : gmap string PointsEntry) : gmap string PointsEntry :=
  match id, amount with
  | EmptyString, _ | _, None | _, Some 0 => points
  | _, Some amount =>
      let cur := default {| points_amount := 0; points_name := name |} (points !! id) in
      <[id := {| points_amount := points_amount cur + amount;
                 points_name := str_or name (points_name cur) |}]> points
  end.

(** [item.timestamp ?? item.time ?? item.id] *)
Definition itemTs (item : NewsItem) : value :=
  coalesce (coalesce (item_timestamp item) (item_time item)) (item_id item).

(** [item.id ?? `${ts}-${JSON.stringify(item).slice(0, 50)}`] *)
Definition itemKey (item : NewsItem) : value :=
  coalesce (item_id item)
    (Str (ToString (itemTs item) +:+ "-" +:+ slice (JSON_stringify item) 0 50)).

(** [item.news ?? item.text ?? item.content ?? ''] *)
Definition itemText (item : NewsItem) : string :=
  default EmptyString (or_else (or_else (item_news item) (item_text item)) (item_content item)).

(** An item is within the bounds when neither [continue] of the range
    test is taken. *)
Definition inRange (chainStart chainEnd : value) (item : NewsItem) : bool :=
  negb (lt StringToNumber (itemTs item) chainStart)
  && negb (gt StringToNumber (itemTs item) chainEnd).

(** The state of the loop of [extractConsumption]: the two objects
    under construction and the [Set] it mutates in place. *)
Definition AggState : Type :=
  gmap string XanaxEntry * gmap string PointsEntry * list value.

(** One iteration of [for (const item of newsItems)]. *)
Definition consumeItem (chainStart chainEnd : value) (st : AggState)
    (item : NewsItem) : AggState :=
  let '(xanax, points, processedIds) := st in
  let ts := itemTs item in
  if lt StringToNumber ts chainStart then st
  else if gt StringToNumber ts chainEnd then st
  else
    let itemId := itemKey item in
    if Set_has processedIds itemId then st
    else
      let processedIds := Set_add processedIds itemId in
      let text := itemText item in
      match extractMemberIdAndName text with
      | None => (xanax, points, processedIds)
      | Some member =>
          let id := member_id member in
          let name := member_name member in
          let xanax :=
            if includes XANAX_PHRASE text then addXanax id name xanax else xanax in
          let points :=
            fold_left (λ points g1, addPoints id (parseInt g1) name points)
                      (execAllPoints 0 text) points in
          (xanax, points, processedIds)
      end.

(** [extractConsumption(newsItems, chainStart, chainEnd, processedIds)]:
    the returned object and the [Set] as the call leaves it. *)
Definition extractConsumption (newsItems : list NewsItem)
    (chainStart chainEnd : value) (processedIds : list value)
  : Consumption * list value :=
  let '(xanax, points, processedIds) :=
    fold_left (consumeItem chainStart chainEnd) newsItems (∅, ∅, processedIds) in
  ({| xanax := xanax; points := points |}, processedIds).

End Aggregator.

(** *** Consumption events

    The loop of [extractConsumption] calls [addXanax] and [addPoints] as it
    parses; the specification speaks of the list of those calls as
    consumption events and of their fold as the aggregator. *)

Inductive ConsumptionEvent : Type :=
  | ItemUse (id name : string)
  | CurrencySpend (id : string) (amount : option Z) (name : string).

Definition event_id (ev : ConsumptionEvent) : string :=
  match ev with
  | ItemUse id _ => id
  | CurrencySpend id _ _ => id
  end.


(** The call an event stands for. *)
Definition applyEvent (st : gmap string XanaxEntry * gmap string PointsEntry)
    (ev : ConsumptionEvent) : gmap string XanaxEntry * gmap string PointsEntry :=
  match ev with
  | ItemUse id name => (addXanax id name st.1, st.2)
  | CurrencySpend id amount name => (st.1, addPoints id amount name st.2)
  end.

(** The aggregator: the fold of a list of events from two empty objects. *)
Definition aggregate (events : list ConsumptionEvent)
  : gmap string XanaxEntry * gmap string PointsEntry :=
  fold_left applyEvent events (∅, ∅).

(** The calls the loop body makes for a message. *)
Definition messageEvents (text : string) : list ConsumptionEvent :=
  match extractMemberIdAndName text with
  | None => []
  | Some member =>
      (if includes XANAX_PHRASE text
       then [ItemUse (member_id member) (member_name member)] else [])
      ++ ((λ g1, CurrencySpend (member_id member) (parseInt g1) (member_name member))
            <$> execAllPoints 0 text)
  end.

(** The calls the loop of [extractConsumption] makes over a feed, the
    dedup set starting as [processedIds]. *)
Fixpoint feedEvents (StringToNumber : string → option Z)
    (JSON_stringify : NewsItem → string) (chainStart chainEnd : value)
    (processedIds : list value) (newsItems : list NewsItem)
  : list ConsumptionEvent :=
  match newsItems with
  | [] => []
  | item :: rest =>
      let itemId := itemKey JSON_stringify item in
      if inRange StringToNumber chainStart chainEnd item
         && negb (Set_has processedIds itemId)
      then messageEvents (itemText item)
             ++ feedEvents StringToNumber JSON_stringify chainStart chainEnd
                  (Set_add processedIds itemId) rest
      else feedEvents StringToNumber JSON_stringify chainStart chainEnd
             processedIds rest
  end.





(** ** Collaborators: the fetch client and the store *)

(** The error a rejected promise carries. *)
Definition error : Type := string.

Inductive result (A : Type) : Type :=
  | Ok (a : A)
  | Err (e : error).
Arguments Ok {A} a.
Arguments Err {A} e.

(** What a call that awaits fetches comes to: a value, a rejection, or
    still waiting when the observer's patience runs out. *)
Inductive outcome (A : Type) : Type :=
  | Done (a : A)
  | Failed (e : error)
  | Pending.
Arguments Done {A} a.
Arguments Failed {A} e.
Arguments Pending {A}.

(** A page of the news feed as [fetchAllFactionNews] reads it: the items
    of [data.news] and the cursor [links.prev ?? meta.prev]. *)
Record NewsPage := { page_news : list NewsItem; page_prev : value }.

(** An attacker's [attacks] or [respect]: a number, or an object with a
    numeric [total]. *)
Inductive Stat := Total (n : Z) | Plain (n : Z).

Record Attacker := {
  att_id : value;
  att_user_id : value;
  att_attacker_id : value;
  att_attacks : option Stat;
  att_hits : option Z;
  att_respect : option Stat;
  att_name : option string;
  att_username : option string;
}.

Record Report := {
  rep_attackers : option (list Attacker);
  rep_attacker : option (list Attacker);
  rep_end : value;
}.

(** The payload of [api.fetchChainReport]: its own fields read as a report,
    and its [chainreport] member when it has one. *)
Record ReportData := { rd_chainreport : option Report; rd_self : Report }.

(** The chain-status payload that drives a sync. *)
Record CurrentChain := {
  cc_id : value;
  cc_chain_id : value;
  cc_chainId : value;
  cc_start : value;
  cc_chain_start : value;
  cc_current : value;
  cc_end : value;
}.

(** The two object stores of the database. *)
Record DB := {
  chains : gmap value ChainRecord;
  config : gmap string value;
}.

(** [db.getChain(chainId)]: the store rejects a key that is not a valid
    key (here [undefined] and [null]). *)
Definition getChain (db : DB) (chainId : value) : result (option ChainRecord) :=
  if nullish chainId then Err "DataError" else Ok (chains db !! chainId).

(** [db.saveChain(chain)]: [put] under the key path [chainId], for a
    record whose [chainId] is a valid key.  The store rejects any other
    record with a [DataError] and keeps nothing of it; that case is
    outside the model. *)
Definition saveChain (db : DB) (chain : ChainRecord) : DB :=
  {| chains := <[chainId chain := chain]> (chains db); config := config db |}.

(** [db.setConfig(key, value)] *)
Definition setConfig (db : DB) (key : string) (v : value) : DB :=
  {| chains := chains db; config := <[key := v]> (config db) |}.

(** What one sync sees of the world: the answers of the fetch client, the
    clock at its two readings, and how many page requests the observer
    waits for. *)
Record World := {
  fetchChainReport : value → result ReportData;
  fetchFactionNews : value → result NewsPage;
  now_resolved : Z;
  now_synced : Z;
  patience : nat;
}.

(** ** Feed paginator, report merger, sync orchestrator *)

Section Engine.
Variable StringToNumber : string → option Z.
Variable JSON_stringify : NewsItem → string.

(** [ts != null && ts < chainStart], the test that breaks out of the
    inner loop of [fetchAllFactionNews]. *)
Definition reachesChainStart (chainStart : value) (item : NewsItem) : bool :=
  let ts := itemTs item in
  negb (nullish ts) && lt StringToNumber ts chainStart.

(** The inner loop of [fetchAllFactionNews] over one page: the items
    pushed onto [allNews] and [reachedChainStart]. *)
Fixpoint scanPage (chainStart : value) (items : list NewsItem)
  : list NewsItem * bool :=
  match items with
  | [] => ([], false)
  | item :: rest =>
      if reachesChainStart chainStart item then ([], true)
      else let '(kept, reached) := scanPage chainStart rest in (item :: kept, reached)
  end.

(** The negation of [if (!prev || reachedChainStart) break]. *)
Definition pageContinues (chainStart : value) (page : NewsPage) : bool :=
  truthy (page_prev page) && negb (scanPage chainStart (page_news page)).2.

(** The [while (true)] loop of [fetchAllFactionNews]: [allNews] when it
    breaks, together with the cursors it has requested, in order. *)
Fixpoint fetchPages (w : World) (fuel : nat) (chainStart before : value)
    (allNews : list NewsItem) (requested : list value)
  : outcome (list NewsItem * list value) :=
  match fuel with
  | O => Pending
  | S fuel =>
      match fetchFactionNews w before with
      | Err e => Failed e
      | Ok data =>
          let '(kept, reachedChainStart) := scanPage chainStart (page_news data) in
          let allNews := allNews ++ kept in
          let requested := requested ++ [before] in
          let prev := page_prev data in
          if negb (truthy prev) || reachedChainStart then Done (allNews, requested)
          else fetchPages w fuel chainStart prev allNews requested
      end
  end.

Definition fetchAllFactionNews (w : World) (chainStart chainEnd : value)
    (processedIds : list value) : outcome (Consumption * list value) :=
  match fetchPages w (patience w) chainStart Null [] [] with
  | Done (allNews, _) =>
      Done (extractConsumption StringToNumber JSON_stringify allNews
              chainStart chainEnd processedIds)
  | Failed e => Failed e
  | Pending => Pending
  end.

(** The entry the first loop of [mergeConsumption] writes for [data],
    [cur] being [consumption[id]] before it. *)
Definition mergeXanaxEntry (data : XanaxEntry) (cur : option ConsumptionEntry)
  : ConsumptionEntry :=
  let cur := default {| cons_xanax := 0; cons_points := 0;
                        cons_name := xanax_name data |} cur in
  {| cons_xanax := num_or_0 (cons_xanax cur) + xanax_count data;
     cons_points := cons_points cur;
     cons_name := str_or (xanax_name data) (cons_name cur) |}.

(** The entry the second loop of [mergeConsumption] writes for [data]. *)
Definition mergePointsEntry (data : PointsEntry) (cur : option ConsumptionEntry)
  : ConsumptionEntry :=
  let cur := default {| cons_xanax := 0; cons_points := 0;
                        cons_name := points_name data |} cur in
  {| cons_xanax := cons_xanax cur;
     cons_points := num_or_0 (cons_points cur) + points_amount data;
     cons_name := str_or (points_name data) (cons_name cur) |}.

(** [mergeConsumption(chain, xanax, points)]: the new [chain.consumption]. *)
Definition mergeConsumption (consumption : gmap string ConsumptionEntry)
    (xanax : gmap string XanaxEntry) (points : gmap string PointsEntry)
  : gmap string ConsumptionEntry :=
  let consumption :=
    map_fold (λ id data consumption,
                <[id := mergeXanaxEntry data (consumption !! id)]> consumption)
             consumption xanax in
  map_fold (λ id data consumption,
              <[id := mergePointsEntry data (consumption !! id)]> consumption)
           consumption points.


(** [updateTotals(chain)]: the new [chain.totals]. *)
Definition updateTotals (hits : gmap string HitEntry)
    (consumption : gmap string ConsumptionEntry) : Totals :=
  let '(h, r) :=
    map_fold (λ _ m '(hits, respect),
                (hits + num_or_0 (hit_hits m), respect + num_or_0 (hit_respect m)))
             (0, 0) hits in
  let '(x, p) :=
    map_fold (λ _ c '(xanax, points),
                (xanax + num_or_0 (cons_xanax c), points + num_or_0 (cons_points c)))
             (0, 0) consumption in
  {| total_hits := h; total_respect := r; total_xanax := x; total_points := p |}.

(** [a.attacks?.total ?? a.attacks ?? ...] on a present field. *)
Definition statValue (s : Stat) : Z :=
  match s with
  | Total n => n
  | Plain n => n
  end.

(** [String(a.id ?? a.user_id ?? a.attacker_id)] *)
Definition attackerKey (a : Attacker) : string :=
  ToString (coalesce (coalesce (att_id a) (att_user_id a)) (att_attacker_id a)).

(** The entry stored for an attacker. *)
Definition hitEntry (a : Attacker) : HitEntry :=
  {| hit_hits :=
       match att_attacks a with
       | Some s => statValue s
       | None => default 0 (att_hits a)
       end;
     hit_respect :=
       match att_respect a with
       | Some s => statValue s
       | None => 0
       end;
     hit_name := default (attackerKey a) (or_else (att_name a) (att_username a)) |}.

(** One iteration of [for (const a of attackers)]. *)
Definition addAttacker (hits : gmap string HitEntry) (a : Attacker)
  : gmap string HitEntry :=
  <[attackerKey a := hitEntry a]> hits.

(** The [hits] object built from the report. *)
Definition reportHits (attackers : list Attacker) : gmap string HitEntry :=
  fold_left addAttacker attackers ∅.

(** [currentChain.id ?? currentChain.chain_id ?? currentChain.chainId] *)
Definition resolveChainId (currentChain : CurrentChain) : value :=
  coalesce (coalesce (cc_id currentChain) (cc_chain_id currentChain))
           (cc_chainId currentChain).

(** [currentChain.start ?? currentChain.chain_start] *)
Definition resolveStart (currentChain : CurrentChain) : value :=
  coalesce (cc_start currentChain) (cc_chain_start currentChain).

(** [currentChain.current != null || currentChain.end == null] *)
Definition isActive (currentChain : CurrentChain) : bool :=
  negb (nullish (cc_current currentChain)) || nullish (cc_end currentChain).

(** [const end], with [now] for [Math.floor(Date.now() / 1000)]. *)
Definition resolveEnd (now : Z) (currentChain : CurrentChain) : value :=
  if isActive currentChain then Num now
  else coalesce (cc_end currentChain) (Num now).

(** The record created [if (isNew)]. *)
Definition seedChain (now : Z) (currentChain : CurrentChain) : ChainRecord :=
  {| chainId := resolveChainId currentChain;
     chain_start := resolveStart currentChain;
     chain_end := if isActive currentChain then Null else resolveEnd now currentChain;
     status := if isActive currentChain then active else finished;
     hits := ∅;
     consumption := ∅;
     totals := {| total_hits := 0; total_respect := 0;
                  total_xanax := 0; total_points := 0 |};
     processedNewsIds := [] |}.

(** [reportData.chainreport ?? reportData] *)
Definition reportOf (reportData : ReportData) : Report :=
  default (rd_self reportData) (rd_chainreport reportData).

(** [report.attackers ?? report.attacker ?? []] *)
Definition attackersOf (report : Report) : list Attacker :=
  default [] (or_else (rep_attackers report) (rep_attacker report)).

(** [currentChain.current ? null : (report.end ?? end)] *)
Definition syncedEnd (now : Z) (currentChain : CurrentChain) (report : Report) : value :=
  if truthy (cc_current currentChain) then Null
  else coalesce (rep_end report) (resolveEnd now currentChain).

(** The mutations of [chain] once both fetches have resolved, from
    [chain.hits = hits] to [updateTotals(chain)]. *)
Definition syncedChain (now : Z) (currentChain : CurrentChain) (chain : ChainRecord)
    (reportData : ReportData) (consumed : Consumption) (processedIds : list value)
  : ChainRecord :=
  let report := reportOf reportData in
  let hits := reportHits (attackersOf report) in
  let consumption := mergeConsumption (consumption chain) (xanax consumed) (points consumed) in
  let chain_end := syncedEnd now currentChain report in
  {| chainId := chainId chain;
     chain_start := chain_start chain;
     chain_end := chain_end;
     status := if truthy chain_end then finished else active;
     hits := hits;
     consumption := consumption;
     totals := updateTotals hits consumption;
     processedNewsIds := processedIds |}.

(** [loadAndSyncChain(apiKey, currentChain)] against a store [db]: what
    the call comes to and the store afterwards.  When both fetches
    reject, the rejection of the report is the one modelled. *)
Definition loadAndSyncChain (w : World) (currentChain : CurrentChain) (db : DB)
  : outcome ChainRecord * DB :=
  let id := resolveChainId currentChain in
  let start := resolveStart currentChain in
  let end_ := resolveEnd (now_resolved w) currentChain in
  match getChain db id with
  | Err e => (Failed e, db)
  | Ok stored =>
      let chain := default (seedChain (now_resolved w) currentChain) stored in
      let processedIds := Set_from (processedNewsIds chain) in
      match fetchChainReport w id,
            fetchAllFactionNews w start end_ processedIds with
      | Err e, _ => (Failed e, db)
      | Ok _, Failed e => (Failed e, db)
      | Ok _, Pending => (Pending, db)
      | Ok reportData, Done (consumed, processedIds) =>
          let chain :=
            syncedChain (now_resolved w) currentChain chain reportData
                        consumed processedIds in
          let db := setConfig db "lastSyncTimestamp" (Num (now_synced w)) in
          let db := saveChain db chain in
          (Done chain, db)
      end
  end.

(** The store keeps each record under its key path: the record found under
    a key has that key as its [chainId]. *)
Definition store_keyed (db : DB) : Prop :=
  ∀ k chain, chains db !! k = Some chain → chainId chain = k.

(** A sequence of sync invocations against the same store, each with the
    world it runs in. *)
Definition syncAll (runs : list (World * CurrentChain)) (db : DB) : DB :=
  fold_left (λ db run, snd (loadAndSyncChain run.1 run.2 db)) runs db.

End Engine.

(** A run whose payload does not report the chain in progress and whose
    resulting end is a truthy value. *)
Definition payload_ends (run : World * CurrentChain) : Prop :=
  truthy (cc_current run.2) = false
  ∧ ∀ reportData,
      fetchChainReport run.1 (resolveChainId run.2) = Ok reportData →
      truthy (syncedEnd (now_resolved run.1) run.2 (reportOf reportData)) = true.

(** The sum of [f] over the entries of a mapping, as the specification
    words the derivation of the totals. *)
Definition sumOver {A} (f : A → Z) (m : gmap string A) : Z :=
  foldr (λ entry acc, f entry.2 + acc) 0 (map_to_list m).

(** The fetch client answers the request for cursor [before] with the
    first of [pages], the request for that page's cursor with the second,
    and so on. *)
Fixpoint served (w : World) (before : value) (pages : list NewsPage) : Prop :=
  match pages with
  | [] => True
  | page :: pages =>
      fetchFactionNews w before = Ok page ∧ served w (page_prev page) pages
  end.

(** The cursor the paginator holds after the pages [pages], starting from
    [before]. *)
Definition cursorAfter (before : value) (pages : list NewsPage) : value :=
  fold_left (λ _ page, page_prev page) pages before.

(** What an event adds to the Xanax counts: [addXanax] counts one use,
    unless the id is empty. *)
Definition event_uses (ev : ConsumptionEvent) : Z :=
  match ev with
  | ItemUse EmptyString _ => 0
  | ItemUse _ _ => 1
  | CurrencySpend _ _ _ => 0
  end.

(** What an event adds to the points amounts: [addPoints] adds the amount,
    unless the id is empty or the amount is missing. *)
Definition event_spend (ev : ConsumptionEvent) : Z :=
  match ev with
  | CurrencySpend EmptyString _ _ => 0
  | CurrencySpend _ (Some n) _ => n
  | _ => 0
  end.

Definition totalOf (f : ConsumptionEvent → Z) (events : list ConsumptionEvent) : Z :=
  foldr (λ ev acc, f ev + acc) 0 events.

(** The names an object literal inherits from [Object.prototype]: under
    these [o[id]] finds a value though [o] has no such entry of its own,
    which the objects of the aggregator, read as mappings, do not show. *)
Definition Object_prototype_names : list string :=
  ["constructor"; "__defineGetter__"; "__defineSetter__"; "hasOwnProperty";
   "__lookupGetter__"; "__lookupSetter__"; "isPrototypeOf"; "propertyIsEnumerable";
   "toString"; "valueOf"; "__proto__"; "toLocaleString"].

(** The events on which the aggregator is modelled exactly: no actor id is
    an inherited name, and the amounts spent add up to an integer that the
    runtime's numbers hold exactly, so that neither [parseInt] nor a sum
    rounds. *)
Definition exactEvents (events : list ConsumptionEvent) : Prop :=
  Forall (λ ev, event_id ev ∉ Object_prototype_names) events
  ∧ Forall (λ ev, 0 ≤ event_spend ev) events
  ∧ totalOf event_spend events ≤ 2 ^ 53.

(** A string without white space, and a string that does not start with
    white space. *)
Definition noWhiteSpace (s : string) : bool :=
  forallb (λ c, negb (isWhiteSpace c)) (String.list_ascii_of_string s).

Definition startsClean (s : string) : Prop :=
  match s with
  | EmptyString => True
  | String c _ => isWhiteSpace c = false
  end.

(** ** The rest of the store layer, [js/db.js] *)

(** [db.getConfig(key)]: [request.result?.value]. *)
Definition getConfig (db : DB) (key : string) : value :=
  default Undefined (config db !! key).

(** [db.getAllChains()]; the order of the records is not modelled. *)
Definition getAllChains (db : DB) : list ChainRecord :=
  (map_to_list (chains db)).*2.

(** ** The rate-limited fetch client, [js/api.js] *)

Module Api.

Definition RATE_LIMIT : nat := 50.
Definition WINDOW_MS : Z := 60000.

(** [waitUntilExpired(ts)] when [Date.now()] reads [now]: the delay it
    sleeps for, 0 when it resolves at once. *)
Definition waitUntilExpired (now ts : Z) : Z :=
  let elapsed := now - ts in
  let remaining := WINDOW_MS - elapsed in
  if remaining <=? 0 then 0 else remaining.

(** The loop of [purgeOldTimestamps]: shift while the first timestamp is
    below the cutoff. *)
Fixpoint purgeBefore (cutoff : Z) (timestamps : list Z) : list Z :=
  match timestamps with
  | [] => []
  | t :: rest => if t <? cutoff then purgeBefore cutoff rest else timestamps
  end.

(** [purgeOldTimestamps()] when [Date.now()] reads [now]. *)
Definition purgeOldTimestamps (now : Z) (timestamps : list Z) : list Z :=
  purgeBefore (now - WINDOW_MS) timestamps.

(** The [while] loop of [waitForRateLimit].  [readings] are the values
    [Date.now()] returns from here on, in order: each round reads the clock
    once in [waitUntilExpired] and once, after the sleep, in
    [purgeOldTimestamps].  The result is the timestamps, the readings left
    and the delays slept; [None] when the readings run out first. *)
Fixpoint waitLoop (readings timestamps slept : list Z)
  : option (list Z * list Z * list Z) :=
  if (length timestamps <? RATE_LIMIT)%nat then Some (timestamps, readings, slept)
  else
    match readings with
    | r1 :: r2 :: readings =>
        let delay :=
          match timestamps with
          | t0 :: _ => waitUntilExpired r1 t0
          | [] => 0
          end in
        waitLoop readings (purgeOldTimestamps r2 timestamps) (slept ++ [delay])
    | _ => None
    end.

(** [waitForRateLimit()] *)
Definition waitForRateLimit (readings timestamps : list Z)
  : option (list Z * list Z * list Z) :=
  match readings with
  | r0 :: readings => waitLoop readings (purgeOldTimestamps r0 timestamps) []
  | [] => None
  end.

(** The first two statements of [fetchWithRateLimit]:
    [await waitForRateLimit(); timestamps.push(Date.now())]. *)
Definition acquire (readings timestamps : list Z) : option (list Z * list Z) :=
  match waitForRateLimit readings timestamps with
  | Some (timestamps, now :: readings, _) => Some (timestamps ++ [now], readings)
  | _ => None
  end.

(** [data.error]: [{ code, error }]. *)
Record TornError := { te_code : Z; te_error : string }.

Section Client.
(** What a payload holds besides [error]. *)
Variable Payload : Type.

(** The parsed body of a response. *)
Record Data := { data_error : option TornError; data_payload : option Payload }.

(** What [fetch(url)] comes to: a rejection, or a response with its status
    and its body, [None] when [response.json()] rejects. *)
Inductive Reply :=
  | NetworkFailure (message : string)
  | Responded (status : Z) (body : option Data).

(** The error [fetchWithRateLimit] throws: an [Error] with, for an API
    error, [code] and [removeKey]. *)
Record Thrown := {
  thrown_message : string;
  thrown_code : option Z;
  thrown_removeKey : bool;
}.

Inductive Fetched :=
  | Returned (data : Data)
  | Threw (err : Thrown).

(** The limiter and the network as one call sees them when it runs
    alone: the timestamps recorded, the clock readings to come and the
    replies to come.  In the program the limit check and the push of the
    timestamp are on either side of an [await], so calls that are started
    together interleave there; that is outside this model. *)
Record Net := {
  timestamps : list Z;
  readings : list Z;
  replies : list Reply;
}.

(** The body of [fetchWithRateLimit(url, retried)] for a call that runs
    alone, [again] standing for the call [fetchWithRateLimit(url, true)].
    [None] is a call that is still waiting when the readings or the
    replies run out. *)
Definition fetchWith (again : Net → option (Fetched * Net)) (retried : bool)
    (net : Net) : option (Fetched * Net) :=
  match acquire (readings net) (timestamps net) with
  | None => None
  | Some (timestamps, readings) =>
      match replies net with
      | [] => None
      | reply :: replies =>
          let net := {| timestamps := timestamps; readings := readings;
                        replies := replies |} in
          match reply with
          | NetworkFailure message =>
              Some (Threw {| thrown_message := message; thrown_code := None;
                             thrown_removeKey := false |}, net)
          | Responded status body =>
              let data := default {| data_error := None; data_payload := None |} body in
              let tornError5 :=
                match data_error data with
                | Some e => te_code e =? 5
                | None => false
                end in
              let http429 := status =? 429 in
              if (tornError5 || http429) && negb retried then again net
              else
                match data_error data with
                | Some e =>
                    Some (Threw {| thrown_message := str_or (te_error e) "API error";
                                   thrown_code := Some (te_code e);
                                   thrown_removeKey :=
                                     bool_decide (te_code e ∈ [2; 12; 13; 18]) |},
                          net)
                | None => Some (Returned data, net)
                end
          end
      end
  end.

(** [fetchWithRateLimit(url, retried)]: the inner call has [retried] set,
    so it never calls again. *)
Definition fetchWithRateLimit (retried : bool) (net : Net) : option (Fetched * Net) :=
  fetchWith (fetchWith (λ _, None) true) retried net.

End Client.

(** The answers [fetchWithRateLimit] takes as rate limiting: a body with
    the error code 5, or the status 429. *)
Definition throttled {Payload} (reply : Reply Payload) : bool :=
  match reply with
  | NetworkFailure _ _ => false
  | Responded _ status body =>
      match body ≫= data_error Payload with
      | Some e => (te_code e =? 5) || (status =? 429)
      | None => status =? 429
      end
  end.

(** What an answer comes to when it is not retried: a body with an error
    is thrown, any other body is returned, whatever the status. *)
Definition settle {Payload} (reply : Reply Payload) : Fetched Payload :=
  match reply with
  | NetworkFailure _ message =>
      Threw _ {| thrown_message := message; thrown_code := None;
                 thrown_removeKey := false |}
  | Responded _ _ body =>
      match body ≫= data_error Payload with
      | Some e =>
          Threw _ {| thrown_message := str_or (te_error e) "API error";
                     thrown_code := Some (te_code e);
                     thrown_removeKey := bool_decide (te_code e ∈ [2; 12; 13; 18]) |}
      | None =>
          Returned _ (default {| data_error := None; data_payload := None |} body)
      end
  end.

End Api.

(** ** The callers of the sync in [js/app.js] *)

(** An entry of the chains list. *)
Record ApiChain := { ac_id : value; ac_chain : value; ac_start : value; ac_end : value }.

(** What the page shows. *)
Inductive Screen :=
  | ApiKeyForm
  | Loading
  | NoActiveChain (apiChains : list ApiChain) (cachedChains : list ChainRecord)
  | Dashboard (chain : ChainRecord).

(** What [api.fetchFactionMembers] is to [init].  The [js/api.js] of the
    repository does not export it, so the call throws the runtime's
    [TypeError] (with its message, and no [removeKey]); an api module that
    exports it answers or rejects, and [init] turns a rejection into an
    empty list. *)
Inductive MembersFetch :=
  | NotExported (typeError : error)
  | Exported.

(** What a caller of the sync sees of the world besides the sync's own
    fetches: what [fetchFactionMembers] is, the answers of
    [fetchCurrentChain] and [fetchFactionChains], the [removeKey] flag an
    error of the fetch client carries, and the clock when a refresh finds
    the chain ended. *)
Record AppWorld := {
  sync_world : World;
  fetchFactionMembers : MembersFetch;
  fetchCurrentChain : result (option CurrentChain);
  fetchFactionChains : result (list ApiChain);
  removeKey : error → bool;
  now_ended : Z;
}.

(** The store, the module state of [app.js] ([refreshIntervalId], with the
    chain its callback has captured, and [isRefreshing]) and the page. *)
Record AppState := {
  app_db : DB;
  refreshTimer : option ChainRecord;
  isRefreshing : bool;
  screen : Screen;
  shownError : option string;
}.

(** [!currentChain?.current && !currentChain?.id] *)
Definition noChain (currentChain : option CurrentChain) : bool :=
  match currentChain with
  | None => true
  | Some c => negb (truthy (cc_current c)) && negb (truthy (cc_id c))
  end.

(** [startAutoRefresh(apiKey, chain)] *)
Definition startAutoRefresh (chain : ChainRecord) (st : AppState) : AppState :=
  match status chain with
  | finished => st
  | active =>
      match refreshTimer st with
      | Some _ => st
      | None =>
          {| app_db := app_db st; refreshTimer := Some chain;
             isRefreshing := isRefreshing st; screen := screen st;
             shownError := shownError st |}
      end
  end.

(** The [catch] of [init] and, with its own message, the first part of the
    [catch] of [onFetchChainFromApi]: show the error and, when it carries
    [removeKey], clear the stored key. *)
Definition failWith (aw : AppWorld) (fallback : string) (e : error) (db : DB)
  : DB * option string :=
  (if removeKey aw e then setConfig db "apiKey" Null else db,
   Some (str_or e fallback)).

Section Callers.
Variable StringToNumber : string → option Z.
Variable JSON_stringify : NewsItem → string.

(** [init()].  The members [api.fetchFactionMembers] answers with only
    name the rows of the dashboard, which is not modelled; the call
    itself is, since it comes first and throws when the api module has no
    such function. *)
Definition init (aw : AppWorld) (st : AppState) : AppState :=
  let db := app_db st in
  let failed e :=
    let '(db, err) := failWith aw "Failed to load" e db in
    {| app_db := db; refreshTimer := refreshTimer st;
       isRefreshing := isRefreshing st; screen := ApiKeyForm;
       shownError := err |} in
  let showing scr :=
    {| app_db := db; refreshTimer := refreshTimer st;
       isRefreshing := isRefreshing st; screen := scr;
       shownError := shownError st |} in
  if negb (truthy (getConfig db "apiKey")) then showing ApiKeyForm
  else
    match fetchFactionMembers aw with
    | NotExported typeError =>
        {| app_db := db; refreshTimer := refreshTimer st;
           isRefreshing := isRefreshing st; screen := ApiKeyForm;
           shownError := Some (str_or typeError "Failed to load") |}
    | Exported =>
        match fetchCurrentChain aw with
        | Err e => failed e
        | Ok currentChain =>
            match currentChain with
            | Some c =>
                if noChain currentChain then
                  match fetchFactionChains aw with
                  | Err e => failed e
                  | Ok apiChains => showing (NoActiveChain apiChains (getAllChains db))
                  end
                else
                  match loadAndSyncChain StringToNumber JSON_stringify (sync_world aw) c db with
                  | (Done chain, db) =>
                      startAutoRefresh chain
                        {| app_db := db; refreshTimer := refreshTimer st;
                           isRefreshing := isRefreshing st; screen := Dashboard chain;
                           shownError := shownError st |}
                  | (Failed e, _) => failed e
                  | (Pending, _) => showing Loading
                  end
            | None =>
                match fetchFactionChains aw with
                | Err e => failed e
                | Ok apiChains => showing (NoActiveChain apiChains (getAllChains db))
                end
            end
        end
    end.

(** One firing of the interval callback of [startAutoRefresh], [visible]
    telling whether [document.visibilityState] is ['visible']. *)
Definition refreshTick (aw : AppWorld) (visible : bool) (st : AppState) : AppState :=
  match refreshTimer st with
  | None => st
  | Some chain =>
      if negb visible then st
      else if isRefreshing st then st
      else
        let settled :=
          {| app_db := app_db st; refreshTimer := refreshTimer st;
             isRefreshing := false; screen := screen st;
             shownError := shownError st |} in
        match fetchCurrentChain aw with
        | Err _ => settled
        | Ok currentChain =>
            match currentChain with
            | Some c =>
                if noChain currentChain then
                  let chain :=
                    {| chainId := chainId chain; chain_start := chain_start chain;
                       chain_end := coalesce (chain_end chain) (Num (now_ended aw));
                       status := finished; hits := hits chain;
                       consumption := consumption chain; totals := totals chain;
                       processedNewsIds := processedNewsIds chain |} in
                  {| app_db := saveChain (app_db st) chain; refreshTimer := None;
                     isRefreshing := false; screen := Dashboard chain;
                     shownError := shownError st |}
                else
                  match loadAndSyncChain StringToNumber JSON_stringify
                          (sync_world aw) c (app_db st) with
                  | (Done updated, db) =>
                      {| app_db := db; refreshTimer := refreshTimer st;
                         isRefreshing := false; screen := Dashboard updated;
                         shownError := shownError st |}
                  | (Failed _, _) => settled
                  | (Pending, _) =>
                      {| app_db := app_db st; refreshTimer := refreshTimer st;
                         isRefreshing := true; screen := screen st;
                         shownError := shownError st |}
                  end
            | None =>
                let chain :=
                  {| chainId := chainId chain; chain_start := chain_start chain;
                     chain_end := coalesce (chain_end chain) (Num (now_ended aw));
                     status := finished; hits := hits chain;
                     consumption := consumption chain; totals := totals chain;
                     processedNewsIds := processedNewsIds chain |} in
                {| app_db := saveChain (app_db st) chain; refreshTimer := None;
                   isRefreshing := false; screen := Dashboard chain;
                   shownError := shownError st |}
            end
        end
  end.

(** The [chainData] that [onFetchChainFromApi] builds. *)
Definition chainDataOf (chainFromApi : ApiChain) : CurrentChain :=
  {| cc_id := coalesce (ac_id chainFromApi) (ac_chain chainFromApi);
     cc_chain_id := coalesce (ac_id chainFromApi) (ac_chain chainFromApi);
     cc_chainId := Undefined;
     cc_start := ac_start chainFromApi;
     cc_chain_start := Undefined;
     cc_current := Null;
     cc_end := ac_end chainFromApi |}.

(** [onFetchChainFromApi(apiKey, chainFromApi)] *)
Definition onFetchChainFromApi (aw : AppWorld) (chainFromApi : ApiChain)
    (st : AppState) : AppState :=
  let db := app_db st in
  match loadAndSyncChain StringToNumber JSON_stringify (sync_world aw)
          (chainDataOf chainFromApi) db with
  | (Done chain, db) =>
      {| app_db := db; refreshTimer := refreshTimer st;
         isRefreshing := isRefreshing st; screen := Dashboard chain;
         shownError := shownError st |}
  | (Failed e, _) =>
      let '(db', err) := failWith aw "Failed to load chain" e db in
      if removeKey aw e then
        {| app_db := db'; refreshTimer := refreshTimer st;
           isRefreshing := isRefreshing st; screen := ApiKeyForm;
           shownError := err |}
      else
        {| app_db := db'; refreshTimer := refreshTimer st;
           isRefreshing := isRefreshing st;
           screen := match fetchFactionChains aw with
                     | Ok apiChains => NoActiveChain apiChains (getAllChains db)
                     | Err _ => Loading
                     end;
           shownError := err |}
  | (Pending, _) =>
      {| app_db := db; refreshTimer := refreshTimer st;
         isRefreshing := isRefreshing st; screen := Loading;
         shownError := shownError st |}
  end.

End Callers.

(** The record the interval callback stores when it finds the chain ended,
    from the record [chain] it captured. *)
Definition endedRecord (now : Z) (chain : ChainRecord) : ChainRecord :=
  {| chainId := chainId chain; chain_start := chain_start chain;
     chain_end := coalesce (chain_end chain) (Num now);
     status := finished; hits := hits chain;
     consumption := consumption chain; totals := totals chain;
     processedNewsIds := processedNewsIds chain |}.

(** ** The member table of [js/ui.js] *)

(** A row of the table: [{ id, name, hits, respect, xanax, points }]. *)
Record MemberRow := {
  row_id : string;
  row_name : string;
  row_hits : Z;
  row_respect : Z;
  row_xanax : Z;
  row_points : Z;
}.

(** The row [buildMemberRows] sets for an entry of [chain.hits]. *)
Definition hitsRow (id : string) (data : HitEntry) : MemberRow :=
  {| row_id := id; row_name := hit_name data;
     row_hits := hit_hits data; row_respect := hit_respect data;
     row_xanax := 0; row_points := 0 |}.

(** The row [buildMemberRows] sets for an entry of [chain.consumption],
    [cur] being [members.get(id)]. *)
Definition consumptionRow (id : string) (data : ConsumptionEntry)
    (cur : option MemberRow) : MemberRow :=
  let name := cons_name data in
  let m := default {| row_id := id; row_name := name; row_hits := 0;
                      row_respect := 0; row_xanax := 0; row_points := 0 |} cur in
  {| row_id := row_id m;
     row_name := str_or name (row_name m);
     row_hits := row_hits m;
     row_respect := row_respect m;
     row_xanax := num_or_0 (row_xanax m) + cons_xanax data;
     row_points := num_or_0 (row_points m) + cons_points data |}.

(** [buildMemberRows(chain, membersMap)] up to its last line: the [Map]
    [members], by id.  The names and numbers of a stored entry are never
    null, so the fallbacks on [membersMap], on the id and on 0 are not
    taken; the order of the rows is not modelled. *)
Definition buildMemberRows (hits : gmap string HitEntry)
    (consumption : gmap string ConsumptionEntry) : gmap string MemberRow :=
  let members :=
    map_fold (λ id data members, <[id := hitsRow id data]> members) ∅ hits in
  map_fold (λ id data members,
              <[id := consumptionRow id data (members !! id)]> members)
           members consumption.

(** The columns the table sorts by: the name, and the five numeric
    columns, [rph] being respect per hit. *)
Inductive NumericKey := Hits | Respect | Rph | Xanax | Points.
Inductive SortKey := ByName | ByNumber (key : NumericKey).
Inductive SortDir := asc | desc.

(** [Array.prototype.sort(cmp)], which is stable: an element goes before
    the first one it does not compare greater than, so equal elements keep
    their order.  The comparator answers with a number, here a rational,
    of which the sort reads the sign. *)
Fixpoint insertSorted {A} (cmp : A → A → Qc) (x : A) (sorted : list A) : list A :=
  match sorted with
  | [] => [x]
  | y :: rest =>
      if bool_decide (cmp x y ≤ 0)%Qc then x :: sorted else y :: insertSorted cmp x rest
  end.

Definition Array_sort {A} (cmp : A → A → Qc) (l : list A) : list A :=
  foldr (insertSorted cmp) [] l.

Section Table.
(** The runtime's [String.prototype.localeCompare] and its division of
    two numbers, whose quotient is a double and so a rational. *)
Variable localeCompare : string → string → Z.
Variable divide : Z → Z → Qc.

(** The number a row is sorted by: [m[sortKey] ?? 0], and for [rph]
    [(m.hits && m.respect) ? m.respect / m.hits : 0]. *)
Definition column (key : NumericKey) (m : MemberRow) : Qc :=
  match key with
  | Hits => Qc_of_Z (row_hits m)
  | Respect => Qc_of_Z (row_respect m)
  | Rph =>
      if (row_hits m =? 0) || (row_respect m =? 0) then 0%Qc
      else divide (row_respect m) (row_hits m)
  | Xanax => Qc_of_Z (row_xanax m)
  | Points => Qc_of_Z (row_points m)
  end.

(** The comparator [renderTable] sorts with: names are strings and are
    compared with [localeCompare], the other columns by difference. *)
Definition compareRows (sortKey : SortKey) (sortDir : SortDir) (a b : MemberRow) : Qc :=
  match sortKey with
  | ByName =>
      Qc_of_Z match sortDir with
              | asc => localeCompare (row_name a) (row_name b)
              | desc => localeCompare (row_name b) (row_name a)
              end
  | ByNumber key =>
      let va := column key a in
      let vb := column key b in
      match sortDir with asc => (va - vb)%Qc | desc => (vb - va)%Qc end
  end.

(** [renderTable(chain, sortKey, sortDir)] on the rows of
    [buildMemberRows]: the rows in the order shown, each with [isTop], the
    flag that gives the row its highlight. *)
Definition renderTable (rows : list MemberRow) (sortKey : SortKey) (sortDir : SortDir)
  : list (MemberRow * bool) :=
  let sorted := Array_sort (compareRows sortKey sortDir) rows in
  let topHits := row_hits <$> take 3 sorted in
  (λ m, (m, bool_decide (row_hits m ∈ topHits) && (0 <? row_hits m))) <$> sorted.

End Table.

(** ** Example data *)

Module Examples.

(** A feed item with a timestamp, an id and a message. *)
Definition item (ts : Z) (id : value) (message : string) : NewsItem :=
  {| item_timestamp := Num ts; item_time := Undefined; item_id := id;
     item_news := None; item_text := Some message; item_content := None |}.

(** Items with the timestamps [hi], [hi - 1], ... ([n] of them), each with
    its timestamp as id. *)
Fixpoint descending (hi : Z) (n : nat) : list NewsItem :=
  match n with
  | O => []
  | S n =>
      item hi (Num hi) "AJMC used one of the faction's Xanax items"
        :: descending (hi - 1) n
  end.

Definition P1 : NewsPage := {| page_news := descending 100 11; page_prev := Str "p2" |}.
Definition P2 : NewsPage := {| page_news := descending 89 10; page_prev := Str "p3" |}.
Definition P3 : NewsPage := {| page_news := descending 79 10; page_prev := Null |}.

(** The examples hold no string where a number is compared and no item
    without an id, so the two runtime parameters are never consulted; these
    stand in for them. *)
Definition stringToNumber : string → option Z := λ _, None.
Definition stringify : NewsItem → string := λ _, "{}".

Definition noReport : ReportData :=
  {| rd_chainreport := None;
     rd_self := {| rep_attackers := None; rep_attacker := None; rep_end := Undefined |} |}.

(** A world whose feed is the three pages. *)
Definition threePages : World :=
  {| fetchChainReport := λ _, Ok noReport;
     fetchFactionNews := λ before,
       match before with
       | Null => Ok P1
       | Str "p2" => Ok P2
       | Str "p3" => Ok P3
       | _ => Err "no such page"
       end;
     now_resolved := 200;
     now_synced := 201;
     patience := 5 |}.

Definition emptyDB : DB := {| chains := ∅; config := ∅ |}.

(** The world of [threePages] with the report endpoint failing. *)
Definition reportDown : World :=
  {| fetchChainReport := λ _, Err "HTTP 500";
     fetchFactionNews := fetchFactionNews threePages;
     now_resolved := 200;
     now_synced := 201;
     patience := 5 |}.

(** An attacker of a report, with a plain number of attacks. *)
Definition attacker (id : string) (attacks : Z) : Attacker :=
  {| att_id := Str id; att_user_id := Undefined; att_attacker_id := Undefined;
     att_attacks := Some (Plain attacks); att_hits := None;
     att_respect := None; att_name := None; att_username := None |}.

(** A world with an empty feed whose report lists [attackers]. *)
Definition reporting (attackers : list Attacker) : World :=
  {| fetchChainReport := λ _,
       Ok {| rd_chainreport := None;
             rd_self := {| rep_attackers := Some attackers; rep_attacker := None;
                           rep_end := Undefined |} |};
     fetchFactionNews := λ _, Ok {| page_news := []; page_prev := Null |};
     now_resolved := 200;
     now_synced := 201;
     patience := 5 |}.

(** The status payload of chain 7, started at 85 and 5 hits in. *)
Definition chain7 : CurrentChain :=
  {| cc_id := Num 7; cc_chain_id := Undefined; cc_chainId := Undefined;
     cc_start := Num 85; cc_chain_start := Undefined;
     cc_current := Num 5; cc_end := Null |}.

(** The status payload of chain 7 once it has ended, at 150. *)
Definition ended7 : CurrentChain :=
  {| cc_id := Num 7; cc_chain_id := Undefined; cc_chainId := Undefined;
     cc_start := Num 85; cc_chain_start := Undefined;
     cc_current := Null; cc_end := Num 150 |}.

(** A world with an empty feed whose report carries the end marker 0. *)
Definition endsAtZero : World :=
  {| fetchChainReport := λ _,
       Ok {| rd_chainreport := None;
             rd_self := {| rep_attackers := None; rep_attacker := None;
                           rep_end := Num 0 |} |};
     fetchFactionNews := λ _, Ok {| page_news := []; page_prev := Null |};
     now_resolved := 200;
     now_synced := 201;
     patience := 5 |}.

(** A store holding one record of chain 7 with consumption for AJMC. *)
Definition stored7 : ChainRecord :=
  {| chainId := Num 7; chain_start := Num 85; chain_end := Null; status := active;
     hits := ∅;
     consumption := {[ "AJMC" := {| cons_xanax := 2; cons_points := 500;
                                    cons_name := "AJMC" |} ]};
     totals := {| total_hits := 0; total_respect := 0;
                  total_xanax := 2; total_points := 500 |};
     processedNewsIds := [Num 100] |}.

Definition storedDB : DB := {| chains := {[ Num 7 := stored7 ]}; config := ∅ |}.


(** The three literal messages of the parser cases. *)
Definition xanaxMessage : string := "AJMC used one of the faction's Xanax items".
Definition pointsMessage : string :=
  "<a href=" +:+ dq +:+ "profiles.php?XID=2405862" +:+ dq
    +:+ ">AJMC</a> used 250000 faction points".
Definition hospitalMessage : string := "AJMC went to the hospital".

(** A world whose feed serves [P1] and fails at the next cursor. *)
Definition feedBreaks : World :=
  {| fetchChainReport := λ _, Ok noReport;
     fetchFactionNews := λ before,
       match before with
       | Null => Ok P1
       | _ => Err "HTTP 500"
       end;
     now_resolved := 200;
     now_synced := 201;
     patience := 5 |}.

(** The record of chain 7 after later syncs: more consumption and more
    processed items than [stored7]. *)
Definition newer7 : ChainRecord :=
  {| chainId := Num 7; chain_start := Num 85; chain_end := Null; status := active;
     hits := ∅;
     consumption := {[ "AJMC" := {| cons_xanax := 5; cons_points := 900;
                                    cons_name := "AJMC" |} ]};
     totals := {| total_hits := 0; total_respect := 0;
                  total_xanax := 5; total_points := 900 |};
     processedNewsIds := [Num 100; Num 99; Num 98] |}.

(** The page with an auto-refresh running that captured [stored7] when it
    started, the store having moved on to [newer7] since. *)
Definition refreshing : AppState :=
  {| app_db := {| chains := {[ Num 7 := newer7 ]};
                  config := {[ "apiKey" := Str "key" ]} |};
     refreshTimer := Some stored7;
     isRefreshing := false;
     screen := Dashboard newer7;
     shownError := None |}.

(** The status endpoint reports no chain. *)
Definition chainOver : AppWorld :=
  {| sync_world := threePages;
     fetchFactionMembers := Exported;
     fetchCurrentChain := Ok None;
     fetchFactionChains := Ok [];
     removeKey := λ _, false;
     now_ended := 300 |}.

(** The status endpoint rejects the key, with an error that carries
    [removeKey]; the api module exports [fetchFactionMembers]. *)
Definition keyRejected : AppWorld :=
  {| sync_world := threePages;
     fetchFactionMembers := Exported;
     fetchCurrentChain := Err "Incorrect key";
     fetchFactionChains := Ok [];
     removeKey := λ _, true;
     now_ended := 300 |}.

(** The same endpoints behind the [js/api.js] of the repository, which has
    no [fetchFactionMembers]. *)
Definition membersMissing : AppWorld :=
  {| sync_world := threePages;
     fetchFactionMembers := NotExported "api.fetchFactionMembers is not a function";
     fetchCurrentChain := Err "Incorrect key";
     fetchFactionChains := Ok [];
     removeKey := λ _, true;
     now_ended := 300 |}.

(** Chain 7 as an entry of the chains list, ended at 150. *)
Definition history7 : ApiChain :=
  {| ac_id := Num 7; ac_chain := Undefined; ac_start := Num 85; ac_end := Num 150 |}.

(** A limiter that has recorded fifty calls at time 0. *)
Definition fullWindow : list Z := replicate 50 0.

(** A network that answers 429 twice, with no body to parse. *)
Definition throttledTwice : Api.Net unit :=
  {| Api.timestamps := [];
     Api.readings := [0; 0; 1; 1];
     Api.replies := [Api.Responded unit 429 None; Api.Responded unit 429 None] |}.

(** A batch with one Xanax use by AJMC. *)
Definition xanaxBatch : gmap string XanaxEntry :=
  {[ "AJMC" := {| xanax_count := 1; xanax_name := "AJMC" |} ]}.

(** The hits of a record with one attacker. *)
Definition someHits : gmap string HitEntry :=
  {[ "A" := {| hit_hits := 3; hit_respect := 10; hit_name := "A" |} ]}.

(** Five member rows, three of them tied behind the first. *)
Definition memberRow (id : string) (hits : Z) : MemberRow :=
  {| row_id := id; row_name := id; row_hits := hits; row_respect := 0;
     row_xanax := 0; row_points := 0 |}.

Definition tiedRows : list MemberRow :=
  [memberRow "a" 7; memberRow "b" 9; memberRow "c" 0; memberRow "d" 7; memberRow "e" 7].

(** Stand-ins for the runtime's [localeCompare] and division: code-unit
    order, and the exact quotient. *)
Definition localeCompare (a b : string) : Z :=
  match String.compare a b with
  | Lt => -1
  | Eq => 0
  | Gt => 1
  end.

Definition divide (a b : Z) : Qc := (Qc_of_Z a / Qc_of_Z b)%Qc.

(** A feed of two items: a points spend by a linked actor, then a Xanax
    use by a plain name. *)
Definition mixedFeed : list NewsItem :=
  [item 100 (Num 100) pointsMessage; item 99 (Num 99) xanaxMessage].

(** An attacker given by [user_id], with [attacks] and [respect] as objects
    with a [total], a stray [hits] field, and a [username] for name. *)
Definition zed : Attacker :=
  {| att_id := Undefined; att_user_id := Num 42; att_attacker_id := Undefined;
     att_attacks := Some (Total 12); att_hits := Some 99;
     att_respect := Some (Total 30); att_name := None; att_username := Some "Zed" |}.

(** A world with an empty feed whose report payload wraps the report in
    [chainreport], listing [zed] under [attacker]; the payload's own
    [attackers] must not be read. *)
Definition reportingWrapped : World :=
  {| fetchChainReport := λ _,
       Ok {| rd_chainreport :=
               Some {| rep_attackers := None; rep_attacker := Some [zed];
                       rep_end := Undefined |};
             rd_self := {| rep_attackers := Some [attacker "A" 10];
                           rep_attacker := None; rep_end := Undefined |} |};
     fetchFactionNews := λ _, Ok {| page_news := []; page_prev := Null |};
     now_resolved := 200;
     now_synced := 201;
     patience := 5 |}.

End Examples.

(** ** Properties *)

(** *** The dedup set *)

Lemma Set_has_elem s v : Set_has s v = true ↔ v ∈ s.
Proof. unfold Set_has. by rewrite bool_decide_eq_true. Qed.

Lemma Set_has_not_elem s v : Set_has s v = false ↔ v ∉ s.
Proof. unfold Set_has. by rewrite bool_decide_eq_false. Qed.

Lemma Set_add_elem s v x : x ∈ Set_add s v ↔ x ∈ s ∨ x = v.
Proof.
  unfold Set_add. destruct (Set_has s v) eqn:Hv.
  - apply Set_has_elem in Hv. split; [by left|]. by intros [?| ->].
  - rewrite elem_of_app, list_elem_of_singleton. done.
Qed.

Lemma Set_from_acc_elem l acc x : x ∈ fold_left Set_add l acc ↔ x ∈ acc ∨ x ∈ l.
Proof.
  revert acc. induction l as [|v l IH]; intros acc; simpl.
  - rewrite elem_of_nil. tauto.
  - rewrite IH, Set_add_elem, elem_of_cons. tauto.
Qed.

Lemma Set_from_elem l x : x ∈ Set_from l ↔ x ∈ l.
Proof. unfold Set_from. rewrite Set_from_acc_elem, elem_of_nil. tauto. Qed.

(** *** Digits and [parseInt] *)

Lemma isDigit_plain c :
  isDigit c = true →
  isWhiteSpace c = false ∧ c ≠ "-"%char ∧ c ≠ "+"%char ∧ 0 ≤ digitValue c.
Proof. destruct c as [[] [] [] [] [] [] [] []]; intros H; try done. Qed.

Lemma span_isDigit_allDigits s : allDigits (span isDigit s).1 = true.
Proof.
  induction s as [|c r IH]; [done|]. simpl.
  destruct (isDigit c) eqn:Hc; [|done].
  destruct (span isDigit r) as [a b]. simpl in *. by rewrite Hc, IH.
Qed.






(** *** Identity extraction *)

Lemma matchProfileAt_id s g1 g2 : matchProfileAt s = Some (g1, g2) → g1 ≠ EmptyString.
Proof.
  unfold matchProfileAt. destruct (stripPrefixCI _ s) as [r|]; [|done].
  destruct (span isDigit r) as [ds r']. destruct ds as [|c ds]; [done|].
  by intros [= <- _].
Qed.

Lemma matchProfile_id s g1 g2 : matchProfile s = Some (g1, g2) → g1 ≠ EmptyString.
Proof.
  assert (∀ s, matchProfile s
               = match matchProfileAt s with
                 | Some m => Some m
                 | None => match s with
                           | EmptyString => None
                           | String _ r => matchProfile r
                           end
                 end) as Hunfold by by intros [].
  induction s as [|c r IH]; rewrite Hunfold.
  - destruct (matchProfileAt EmptyString) as [[a b]|] eqn:Hm; [|done].
    intros [= <- <-]. by eapply matchProfileAt_id.
  - destruct (matchProfileAt (String c r)) as [[a b]|] eqn:Hm; [|done].
    intros [= <- <-]. by eapply matchProfileAt_id.
Qed.

(** Without the marker at a positive index, the name is the first word
    or the placeholder, and so not empty. *)
Lemma extractMemberName_empty text :
  extractMemberName text = EmptyString → 0 < indexOf " used " text.
Proof.
  unfold extractMemberName. destruct (Z.ltb_spec 0 (indexOf " used " text)); [done|].
  destruct (filterBoolean _) as [|w ws] eqn:Hwords; [done|].
  intros ->. exfalso.
  assert (EmptyString ∈ filterBoolean (splitWs (replaceTags " " (trim text)))) as Hin.
  { rewrite Hwords. apply elem_of_cons. by left. }
  unfold filterBoolean in Hin. apply list_elem_of_filter in Hin as [Hne _]. done.
Qed.

Lemma extractMemberIdAndName_id text member :
  extractMemberIdAndName text = Some member → member_id member ≠ EmptyString.
Proof.
  unfold extractMemberIdAndName.
  destruct (matchProfile text) as [[g1 g2]|] eqn:Hm.
  - intros [= <-]. simpl. by eapply matchProfile_id.
  - destruct (extractMemberName text) as [|c name]; [done|]. by intros [= <-].
Qed.

Lemma extractMemberIdAndName_None text :
  extractMemberIdAndName text = None
  ↔ matchProfile text = None ∧ extractMemberName text = EmptyString.
Proof.
  unfold extractMemberIdAndName.
  destruct (matchProfile text) as [[g1 g2]|].
  - split; [done|]. by intros [? _].
  - destruct (extractMemberName text) as [|c name]; split; try done. by intros [_ ?].
Qed.

(** *** The aggregator as a fold of events *)
















(** *** The loop of [extractConsumption] *)

Section AggregatorFacts.
Variable StringToNumber : string → option Z.
Variable JSON_stringify : NewsItem → string.

#[local] Abbreviation consumeItem := (consumeItem StringToNumber JSON_stringify).
#[local] Abbreviation extractConsumption := (extractConsumption StringToNumber JSON_stringify).
#[local] Abbreviation itemKey := (itemKey JSON_stringify).
#[local] Abbreviation inRange := (inRange StringToNumber).

Lemma consumeItem_out_of_range s e st item :
  inRange s e item = false → consumeItem s e st item = st.
Proof.
  unfold inRange, consumeItem. destruct st as [[x p] ids].
  destruct (lt _ _ s); [done|]. by destruct (gt _ _ e).
Qed.

Lemma consumeItem_seen s e x p ids item :
  itemKey item ∈ ids → consumeItem s e (x, p, ids) item = (x, p, ids).
Proof.
  intros Hin. unfold consumeItem.
  destruct (lt _ _ s); [done|]. destruct (gt _ _ e); [done|].
  apply Set_has_elem in Hin. by rewrite Hin.
Qed.

Lemma consumeItem_ids_mono s e st item v :
  v ∈ st.2 → v ∈ (consumeItem s e st item).2.
Proof.
  destruct st as [[x p] ids]. unfold consumeItem. simpl. intros Hv.
  destruct (lt _ _ s); [done|]. destruct (gt _ _ e); [done|].
  destruct (Set_has ids _); [done|].
  destruct (extractMemberIdAndName _); simpl; apply Set_add_elem; by left.
Qed.

Lemma consumeItem_marks s e st item :
  inRange s e item = true → itemKey item ∈ (consumeItem s e st item).2.
Proof.
  destruct st as [[x p] ids]. unfold inRange, consumeItem. simpl.
  destruct (lt _ _ s); [done|]. destruct (gt _ _ e); [done|]. intros _.
  destruct (Set_has ids _) eqn:Hhas; [by apply Set_has_elem|].
  destruct (extractMemberIdAndName _); simpl; apply Set_add_elem; by right.
Qed.

(** What the loop does with an item that passes the range and dedup
    tests. *)
Lemma consumeItem_fresh s e x p ids item :
  inRange s e item = true → itemKey item ∉ ids →
  consumeItem s e (x, p, ids) item
  = match extractMemberIdAndName (itemText item) with
    | None => (x, p, ids ++ [itemKey item])
    | Some member =>
        (if includes XANAX_PHRASE (itemText item)
         then addXanax (member_id member) (member_name member) x else x,
         fold_left (λ points g1,
                      addPoints (member_id member) (parseInt g1) (member_name member) points)
                   (execAllPoints 0 (itemText item)) p,
         ids ++ [itemKey item])
    end.
Proof.
  unfold inRange, consumeItem. intros Hr Hnew.
  destruct (lt _ _ s); [done|]. destruct (gt _ _ e); [done|].
  apply Set_has_not_elem in Hnew. unfold Set_add. rewrite Hnew.
  by destruct (extractMemberIdAndName _).
Qed.

Lemma fold_consumeItem_ids_mono s e items st v :
  v ∈ st.2 → v ∈ (fold_left (consumeItem s e) items st).2.
Proof.
  revert st. induction items as [|i items IH]; intros st Hv; [done|].
  cbn [fold_left]. apply IH. by apply consumeItem_ids_mono.
Qed.

Lemma fold_consumeItem_marks s e items st item :
  item ∈ items → inRange s e item = true →
  itemKey item ∈ (fold_left (consumeItem s e) items st).2.
Proof.
  revert st. induction items as [|i items IH]; intros st Hin Hr.
  - by apply elem_of_nil in Hin.
  - cbn [fold_left]. apply elem_of_cons in Hin as [->|Hin].
    + apply fold_consumeItem_ids_mono. by apply consumeItem_marks.
    + by apply IH.
Qed.

(** Items that are out of range or already in the set leave the whole
    state of the loop as it is. *)
Lemma fold_consumeItem_all_seen s e items x p ids :
  (∀ item, item ∈ items → inRange s e item = true → itemKey item ∈ ids) →
  fold_left (consumeItem s e) items (x, p, ids) = (x, p, ids).
Proof.
  induction items as [|i items IH]; intros Hall; [done|].
  cbn [fold_left]. assert (consumeItem s e (x, p, ids) i = (x, p, ids)) as ->.
  { destruct (inRange s e i) eqn:Hr.
    - apply consumeItem_seen. apply Hall; [apply elem_of_cons; by left|done].
    - by apply consumeItem_out_of_range. }
  apply IH. intros item Hin. apply Hall. apply elem_of_cons. by right.
Qed.

Lemma extractConsumption_ids s e items ids :
  (extractConsumption items s e ids).2
  = (fold_left (consumeItem s e) items (∅, ∅, ids)).2.
Proof.
  unfold extractConsumption.
  by destruct (fold_left _ items _) as [[x p] ids'].
Qed.

Lemma extractConsumption_all_seen s e items ids :
  (∀ item, item ∈ items → inRange s e item = true → itemKey item ∈ ids) →
  extractConsumption items s e ids = ({| xanax := ∅; points := ∅ |}, ids).
Proof.
  intros Hall. unfold extractConsumption.
  by rewrite fold_consumeItem_all_seen.
Qed.







Lemma fold_applyEvent_spends id name gs : ∀ x p,
  fold_left applyEvent ((λ g1, CurrencySpend id (parseInt g1) name) <$> gs) (x, p)
  = (x, fold_left (λ points g1, addPoints id (parseInt g1) name points) gs p).
Proof.
  induction gs as [|g gs IH]; intros x p; [done|].
  cbn [fmap list_fmap fold_left]. simpl. apply IH.
Qed.

(** One iteration of the loop is the fold of the events of its message. *)
Lemma consumeItem_events s e x p ids item :
  consumeItem s e (x, p, ids) item
  = if inRange s e item && negb (Set_has ids (itemKey item))
    then (fold_left applyEvent (messageEvents (itemText item)) (x, p),
          Set_add ids (itemKey item))
    else (x, p, ids).
Proof.
  destruct (inRange s e item) eqn:Hr; cbn [andb];
    [|by apply consumeItem_out_of_range].
  destruct (Set_has ids (itemKey item)) eqn:Hhas; cbn [negb].
  { apply consumeItem_seen. by apply Set_has_elem. }
  rewrite consumeItem_fresh by (done || by apply Set_has_not_elem).
  unfold messageEvents, Set_add. rewrite Hhas.
  destruct (extractMemberIdAndName (itemText item)) as [m|]; [|done].
  rewrite fold_left_app.
  destruct (includes XANAX_PHRASE (itemText item)); simpl;
    by rewrite fold_applyEvent_spends.
Qed.

Lemma fold_consumeItem_events s e items : ∀ x p ids,
  (fold_left (consumeItem s e) items (x, p, ids)).1
  = fold_left applyEvent
      (feedEvents StringToNumber JSON_stringify s e ids items) (x, p).
Proof.
  induction items as [|i items IH]; intros x p ids; [done|].
  cbn [fold_left feedEvents]. rewrite consumeItem_events.
  destruct (inRange s e i && negb (Set_has ids (itemKey i))); [|apply IH].
  rewrite fold_left_app.
  destruct (fold_left applyEvent (messageEvents (itemText i)) (x, p)) as [x' p'].
  apply IH.
Qed.

(** What [extractConsumption] returns is the aggregate of the events of
    the feed. *)
Lemma extractConsumption_aggregate items s e ids :
  (extractConsumption items s e ids).1
  = {| xanax := (aggregate (feedEvents StringToNumber JSON_stringify s e ids items)).1;
       points := (aggregate (feedEvents StringToNumber JSON_stringify s e ids items)).2 |}.
Proof.
  unfold extractConsumption, aggregate.
  rewrite <- fold_consumeItem_events.
  by destruct (fold_left _ items _) as [[x p] ids'].
Qed.


(** C10, as the code has it. [extractMemberIdAndName] is null exactly
    when the text holds no profile link and [extractMemberName] is empty,
    which needs the marker at a positive index; any result it gives has a
    non-empty actor id. An in-range, non-duplicate item is marked processed
    in either case, and when no actor is extracted it is skipped: only its
    id joins the dedup set. *)
Theorem parser_partial :
  (∀ text member,
     extractMemberIdAndName text = Some member → member_id member ≠ EmptyString)
  ∧ (∀ text,
       extractMemberIdAndName text = None
       ↔ matchProfile text = None ∧ extractMemberName text = EmptyString)
  ∧ (∀ text, extractMemberName text = EmptyString → 0 < indexOf " used " text)
  ∧ (∀ chainStart chainEnd st item,
       inRange chainStart chainEnd item = true →
       itemKey item ∈ (consumeItem chainStart chainEnd st item).2)
  ∧ (∀ chainStart chainEnd xanax points processedIds item,
       inRange chainStart chainEnd item = true →
       itemKey item ∉ processedIds →
       extractMemberIdAndName (itemText item) = None →
       consumeItem chainStart chainEnd (xanax, points, processedIds) item
       = (xanax, points, processedIds ++ [itemKey item])).
Proof.
  split; [apply extractMemberIdAndName_id|].
  split; [apply extractMemberIdAndName_None|].
  split; [apply extractMemberName_empty|].
  split; [apply consumeItem_marks|].
  intros s e x p ids item Hr Hnew Hnone.
  rewrite (consumeItem_fresh s e x p ids item Hr Hnew). by rewrite Hnone.
Qed.

(** C3. Parser literal cases: an in-range, non-duplicate item with the
    Xanax message yields exactly one item use for actor key AJMC; with the
    profile-link message exactly one currency spend of 250000 for actor id
    2405862 with display name AJMC; with the hospital message nothing; and
    a currency quantity that is 0 or not a number is not added, nor is a
    message without digits matched. *)
Theorem parser_literal_cases :
  (∀ item chainStart chainEnd processedIds,
     inRange chainStart chainEnd item = true →
     itemKey item ∉ processedIds →
     (itemText item = Examples.xanaxMessage →
      extractConsumption [item] chainStart chainEnd processedIds
      = ({| xanax := {[ "AJMC" := {| xanax_count := 1; xanax_name := "AJMC" |} ]};
            points := ∅ |},
         processedIds ++ [itemKey item]))
     ∧ (itemText item = Examples.pointsMessage →
        extractConsumption [item] chainStart chainEnd processedIds
        = ({| xanax := ∅;
              points := {[ "2405862" := {| points_amount := 250000;
                                           points_name := "AJMC" |} ]} |},
           processedIds ++ [itemKey item]))
     ∧ (itemText item = Examples.hospitalMessage →
        extractConsumption [item] chainStart chainEnd processedIds
        = ({| xanax := ∅; points := ∅ |}, processedIds ++ [itemKey item]))
     ∧ (itemText item = "AJMC used 0 faction points" →
        extractConsumption [item] chainStart chainEnd processedIds
        = ({| xanax := ∅; points := ∅ |}, processedIds ++ [itemKey item])))
  ∧ (∀ id name points,
       addPoints id (Some 0) name points = points
       ∧ addPoints id None name points = points)
  ∧ execAllPoints 0 "AJMC used  faction points" = [].
Proof.
  split; [|split].
  - intros item s e ids Hr Hnew.
    unfold extractConsumption. cbn [fold_left].
    rewrite (consumeItem_fresh s e ∅ ∅ ids item Hr Hnew).
    repeat split; intros ->; reflexivity.
  - intros id name points. split; by destruct id.
  - reflexivity.
Qed.

End AggregatorFacts.



(** C10, the claim refuted. On a message that opens with two spaces
    before the marker, [extractMemberName] is the empty string and
    [extractMemberIdAndName] is null, so the loop takes the branch that
    skips the item: the spend of 5 points is attributed to no actor, while
    the item is marked processed. *)
Lemma parser_returns_null :
  let text := "  used 5 faction points" in
  let item := Examples.item 90 (Str "n1") text in
  extractMemberName text = EmptyString
  ∧ extractMemberIdAndName text = None
  ∧ extractConsumption Examples.stringToNumber Examples.stringify
      [item] (Num 85) (Num 200) []
    = ({| xanax := ∅; points := ∅ |}, [Str "n1"]).
Proof. repeat split. Qed.

Lemma parser_partial_witness :
  let item := Examples.item 90 (Str "n1") "  used 5 faction points" in
  inRange Examples.stringToNumber (Num 85) (Num 200) item = true
  ∧ (itemKey Examples.stringify item ∉ (nil : list value))
  ∧ extractMemberIdAndName (itemText item) = None
  ∧ consumeItem Examples.stringToNumber Examples.stringify (Num 85) (Num 200)
      (∅, ∅, []) item
    = (∅, ∅, [] ++ [itemKey Examples.stringify item]).
Proof.
  intros item.
  assert (inRange Examples.stringToNumber (Num 85) (Num 200) item = true) as Hr.
  { reflexivity. }
  assert (itemKey Examples.stringify item ∉ (nil : list value)) as Hnew.
  { apply not_elem_of_nil. }
  assert (extractMemberIdAndName (itemText item) = None) as Hnone.
  { reflexivity. }
  split; [exact Hr|]. split; [exact Hnew|]. split; [exact Hnone|].
  exact (proj2 (proj2 (proj2 (proj2
           (parser_partial Examples.stringToNumber Examples.stringify))))
           (Num 85) (Num 200) ∅ ∅ [] item Hr Hnew Hnone).
Defined.

Lemma parser_literal_cases_witness :
  let item := Examples.item 90 (Str "n1") Examples.xanaxMessage in
  inRange Examples.stringToNumber (Num 85) (Num 200) item = true
  ∧ (itemKey Examples.stringify item ∉ (nil : list value))
  ∧ itemText item = Examples.xanaxMessage
  ∧ extractConsumption Examples.stringToNumber Examples.stringify
      [item] (Num 85) (Num 200) []
    = ({| xanax := {[ "AJMC" := {| xanax_count := 1; xanax_name := "AJMC" |} ]};
          points := ∅ |},
       [] ++ [itemKey Examples.stringify item]).
Proof.
  intros item.
  assert (inRange Examples.stringToNumber (Num 85) (Num 200) item = true) as Hr.
  { reflexivity. }
  assert (itemKey Examples.stringify item ∉ (nil : list value)) as Hnew.
  { apply not_elem_of_nil. }
  split; [exact Hr|]. split; [exact Hnew|]. split; [reflexivity|].
  apply (proj1 (proj1 (parser_literal_cases Examples.stringToNumber Examples.stringify)
                  item (Num 85) (Num 200) [] Hr Hnew)).
  reflexivity.
Defined.

(** *** The orchestrator *)

Section EngineFacts.
Variable StringToNumber : string → option Z.
Variable JSON_stringify : NewsItem → string.

#[local] Abbreviation consumeItem := (consumeItem StringToNumber JSON_stringify).
#[local] Abbreviation extractConsumption := (extractConsumption StringToNumber JSON_stringify).
#[local] Abbreviation itemKey := (itemKey JSON_stringify).
#[local] Abbreviation inRange := (inRange StringToNumber).
#[local] Abbreviation scanPage := (scanPage StringToNumber).
#[local] Abbreviation fetchPages := (fetchPages StringToNumber).
#[local] Abbreviation fetchAllFactionNews := (fetchAllFactionNews StringToNumber JSON_stringify).
#[local] Abbreviation loadAndSyncChain := (loadAndSyncChain StringToNumber JSON_stringify).
#[local] Abbreviation syncAll := (syncAll StringToNumber JSON_stringify).

Lemma mergeConsumption_empty consumption : mergeConsumption consumption ∅ ∅ = consumption.
Proof. unfold mergeConsumption. by rewrite !map_fold_empty. Qed.

(** What a completed sync has gone through. *)
Lemma loadAndSyncChain_done w cc db r db' :
  loadAndSyncChain w cc db = (Done r, db') →
  ∃ stored reportData allNews requested,
    getChain db (resolveChainId cc) = Ok stored
    ∧ fetchChainReport w (resolveChainId cc) = Ok reportData
    ∧ fetchPages w (patience w) (resolveStart cc) Null [] [] = Done (allNews, requested)
    ∧ let chain := default (seedChain (now_resolved w) cc) stored in
      let news := extractConsumption allNews (resolveStart cc)
                    (resolveEnd (now_resolved w) cc)
                    (Set_from (processedNewsIds chain)) in
      r = syncedChain (now_resolved w) cc chain reportData news.1 news.2
      ∧ db' = saveChain (setConfig db "lastSyncTimestamp" (Num (now_synced w))) r.
Proof.
  unfold loadAndSyncChain, fetchAllFactionNews.
  destruct (getChain db _) as [stored|e]; [|done].
  destruct (fetchChainReport w _) as [rd|e];
    destruct (fetchPages w _ _ _ _ _) as [[allNews requested]| |]; try done.
  destruct (extractConsumption _ _ _ _) as [consumed ids] eqn:Hnews.
  intros [= <- <-]. exists stored, rd, allNews, requested.
  simpl. rewrite Hnews. done.
Qed.

(** A sync changes the store only when it completes. *)
Lemma loadAndSyncChain_not_done w cc db :
  (∀ r, (loadAndSyncChain w cc db).1 ≠ Done r) → (loadAndSyncChain w cc db).2 = db.
Proof.
  unfold loadAndSyncChain.
  destruct (getChain db _) as [stored|e]; [|done].
  destruct (fetchChainReport w _) as [rd|e]; [|done].
  destruct (fetchAllFactionNews w _ _ _) as [[consumed ids]| |]; try done.
  intros H. by destruct (H _ eq_refl).
Qed.

(** A sync completes whenever the chain id is a valid key, the report
    fetch resolves and the paginator's loop breaks within the observer's
    patience. *)
Lemma loadAndSyncChain_completes w cc db reportData fetched :
  nullish (resolveChainId cc) = false →
  fetchChainReport w (resolveChainId cc) = Ok reportData →
  fetchPages w (patience w) (resolveStart cc) Null [] [] = Done fetched →
  ∃ r db', loadAndSyncChain w cc db = (Done r, db').
Proof.
  intros Hkey Hrep Hpages. unfold loadAndSyncChain, getChain, fetchAllFactionNews.
  rewrite Hkey, Hrep, Hpages. destruct fetched as [allNews requested].
  destruct (extractConsumption _ _ _ _) as [consumed ids]. eauto.
Qed.

Lemma getChain_saved db chain :
  nullish (chainId chain) = false →
  getChain (saveChain db chain) (chainId chain) = Ok (Some chain).
Proof.
  intros Hk. unfold getChain, saveChain. rewrite Hk. simpl.
  by rewrite lookup_insert_eq.
Qed.

Lemma getChain_Ok db k stored :
  getChain db k = Ok stored → nullish k = false ∧ stored = chains db !! k.
Proof. unfold getChain. destruct (nullish k); [done|]. by intros [= <-]. Qed.

Lemma store_keyed_saveChain db chain : store_keyed db → store_keyed (saveChain db chain).
Proof.
  intros Hk k c. unfold saveChain. simpl.
  destruct (decide (chainId chain = k)) as [<-|Hne].
  - rewrite lookup_insert_eq. by intros [= <-].
  - rewrite lookup_insert_ne by done. apply Hk.
Qed.

Lemma store_keyed_setConfig db key v : store_keyed db → store_keyed (setConfig db key v).
Proof. done. Qed.

(** The record a sync works on carries the resolved chain id. *)
Lemma working_chain_id now cc db stored :
  store_keyed db → getChain db (resolveChainId cc) = Ok stored →
  chainId (default (seedChain now cc) stored) = resolveChainId cc.
Proof.
  intros Hk [_ ->]%getChain_Ok.
  destruct (chains db !! _) as [c|] eqn:Hc; simpl; [by apply Hk|done].
Qed.

(** C1. Dedup idempotence: a second pass over the same items with the
    dedup set the first pass left aggregates nothing and leaves the set as
    it is; merging that empty result changes no consumption entry; an item
    whose id is in the dedup set leaves the state of the loop untouched;
    and a second sync of the same chain in the same world ends with the
    consumption of the first. *)
Theorem dedup_idempotent :
  (∀ items chainStart chainEnd processedIds,
     let first := extractConsumption items chainStart chainEnd processedIds in
     extractConsumption items chainStart chainEnd first.2
     = ({| xanax := ∅; points := ∅ |}, first.2)
     ∧ ∀ consumption,
         let merged := mergeConsumption consumption (xanax first.1) (points first.1) in
         let second := extractConsumption items chainStart chainEnd first.2 in
         mergeConsumption merged (xanax second.1) (points second.1) = merged)
  ∧ (∀ chainStart chainEnd xanax points processedIds item,
       itemKey item ∈ processedIds →
       consumeItem chainStart chainEnd (xanax, points, processedIds) item
       = (xanax, points, processedIds))
  ∧ (∀ w currentChain db r1 db1,
       store_keyed db →
       loadAndSyncChain w currentChain db = (Done r1, db1) →
       ∃ r2 db2,
         loadAndSyncChain w currentChain db1 = (Done r2, db2)
         ∧ consumption r2 = consumption r1
         ∧ total_xanax (totals r2) = total_xanax (totals r1)
         ∧ total_points (totals r2) = total_points (totals r1)).
Proof.
  assert (∀ items s e ids,
    extractConsumption items s e (extractConsumption items s e ids).2
    = ({| xanax := ∅; points := ∅ |}, (extractConsumption items s e ids).2)) as Hsecond.
  { intros items s e ids. apply extractConsumption_all_seen.
    intros item Hin Hr. rewrite extractConsumption_ids.
    by apply fold_consumeItem_marks. }
  split; [|split].
  - intros items s e ids first. split; [apply Hsecond|].
    intros cons merged second. subst second first. rewrite Hsecond. simpl.
    apply mergeConsumption_empty.
  - intros s e x p ids item Hin. by apply consumeItem_seen.
  - intros w cc db r1 db1 Hkeyed Hsync.
    destruct (loadAndSyncChain_done _ _ _ _ _ Hsync)
      as (stored & rd & allNews & requested & Hget & Hrep & Hpages & Hr1 & Hdb1).
    simpl in Hr1, Hdb1.
    assert (chainId r1 = resolveChainId cc) as Hid.
    { rewrite Hr1. simpl. by eapply working_chain_id. }
    assert (getChain db1 (resolveChainId cc) = Ok (Some r1)) as Hget1.
    { rewrite Hdb1, <- Hid. apply getChain_saved. rewrite Hid.
      by apply getChain_Ok in Hget as [? _]. }
    unfold loadAndSyncChain, fetchAllFactionNews.
    rewrite Hget1, Hrep, Hpages. simpl.
    set (ids1 := Set_from (processedNewsIds r1)).
    assert (extractConsumption allNews (resolveStart cc)
              (resolveEnd (now_resolved w) cc) ids1
            = ({| xanax := ∅; points := ∅ |}, ids1)) as ->.
    { apply extractConsumption_all_seen. intros item Hin Hr.
      subst ids1. apply Set_from_elem. rewrite Hr1. simpl.
      rewrite extractConsumption_ids. by apply fold_consumeItem_marks. }
    eexists _, _. split; [done|]. simpl.
    rewrite mergeConsumption_empty. split; [done|].
    rewrite Hr1. simpl. unfold updateTotals.
    repeat match goal with |- context [map_fold ?f ?b ?m] =>
      destruct (map_fold f b m) end. done.
Qed.

Lemma num_or_0_id x : num_or_0 x = x.
Proof. unfold num_or_0. destruct (Z.eqb_spec x 0); congruence. Qed.

(** A loop that rewrites the entry of each key of [m] from its current
    entry touches each key once. *)
Lemma map_fold_merge_lookup {A B} (f : A → option B → B)
    (c0 : gmap string B) (m : gmap string A) id :
  map_fold (λ k d c, <[k := f d (c !! k)]> c) c0 m !! id
  = match m !! id with
    | Some d => Some (f d (c0 !! id))
    | None => c0 !! id
    end.
Proof.
  revert id.
  apply (map_fold_weak_ind (λ r m, ∀ id,
    r !! id = match m !! id with
              | Some d => Some (f d (c0 !! id))
              | None => c0 !! id
              end)).
  - intros id. by rewrite lookup_empty.
  - intros i x m' r Hi IH id. destruct (decide (i = id)) as [->|Hne].
    + by rewrite !lookup_insert_eq, IH, Hi.
    + rewrite !lookup_insert_ne by done. apply IH.
Qed.

Lemma mergeConsumption_lookup consumption x p id :
  mergeConsumption consumption x p !! id
  = let afterXanax :=
      match x !! id with
      | Some d => Some (mergeXanaxEntry d (consumption !! id))
      | None => consumption !! id
      end in
    match p !! id with
    | Some d => Some (mergePointsEntry d afterXanax)
    | None => afterXanax
    end.
Proof.
  unfold mergeConsumption.
  rewrite (map_fold_merge_lookup (λ d cur, mergePointsEntry d cur)).
  by rewrite (map_fold_merge_lookup (λ d cur, mergeXanaxEntry d cur)).
Qed.







(** One sync whose payload ends the chain keeps a finished record finished. *)
Lemma loadAndSyncChain_stays_finished w cc db k rec :
  store_keyed db → chains db !! k = Some rec → status rec = finished →
  payload_ends (w, cc) →
  store_keyed (loadAndSyncChain w cc db).2
  ∧ ∃ rec', chains (loadAndSyncChain w cc db).2 !! k = Some rec'
            ∧ status rec' = finished.
Proof.
  intros Hkeyed Hrec Hfin [Hcur Hend]. simpl in Hcur, Hend.
  destruct (loadAndSyncChain w cc db) as [o db'] eqn:Hrun.
  destruct o as [r| |]; simpl.
  - destruct (loadAndSyncChain_done _ _ _ _ _ Hrun)
      as (stored & rd & allNews & requested & Hget & Hrep & _ & Hr & Hdb).
    simpl in Hr, Hdb. split.
    { rewrite Hdb. by apply store_keyed_saveChain, store_keyed_setConfig. }
    assert (chainId r = resolveChainId cc) as Hid.
    { rewrite Hr. simpl. by eapply working_chain_id. }
    rewrite Hdb. simpl. rewrite Hid.
    destruct (decide (resolveChainId cc = k)) as [Hk|Hne].
    + rewrite Hk, lookup_insert_eq. exists r. split; [done|].
      rewrite Hr. simpl. by rewrite (Hend rd Hrep).
    + rewrite lookup_insert_ne by done. by exists rec.
  - pose proof (loadAndSyncChain_not_done w cc db) as Hsame.
    rewrite Hrun in Hsame. simpl in Hsame. rewrite Hsame by done.
    split; [done|]. by exists rec.
  - pose proof (loadAndSyncChain_not_done w cc db) as Hsame.
    rewrite Hrun in Hsame. simpl in Hsame. rewrite Hsame by done.
    split; [done|]. by exists rec.
Qed.

(** C4, as the code has it. A completed sync derives end and status from
    the payload and the report alone: with a truthy [current] the end is
    null and the status active, whatever the stored record held; otherwise
    the end is the report's end marker if it has one, else the payload's
    end when the payload is not active, else the current time, and the
    status is finished exactly when that end is truthy. So a finished
    record stays finished over the syncs whose payload has a falsy
    [current] and whose end comes out truthy. A sync completes whenever
    its chain id is a valid key and both fetches resolve. *)
Theorem status_follows_payload :
  (∀ w currentChain db r db',
     loadAndSyncChain w currentChain db = (Done r, db') →
     ∃ reportData,
       fetchChainReport w (resolveChainId currentChain) = Ok reportData
       ∧ (truthy (cc_current currentChain) = true →
          chain_end r = Null ∧ status r = active)
       ∧ (truthy (cc_current currentChain) = false →
          chain_end r
          = coalesce (rep_end (reportOf reportData))
              (if isActive currentChain then Num (now_resolved w)
               else coalesce (cc_end currentChain) (Num (now_resolved w)))
          ∧ (status r = finished ↔ truthy (chain_end r) = true)))
  ∧ (∀ runs db k rec,
       store_keyed db → chains db !! k = Some rec → status rec = finished →
       Forall payload_ends runs →
       ∃ rec', chains (syncAll runs db) !! k = Some rec' ∧ status rec' = finished)
  ∧ (∀ w currentChain db reportData fetched,
       nullish (resolveChainId currentChain) = false →
       fetchChainReport w (resolveChainId currentChain) = Ok reportData →
       fetchPages w (patience w) (resolveStart currentChain) Null [] [] = Done fetched →
       ∃ r db', loadAndSyncChain w currentChain db = (Done r, db')).
Proof.
  split; [|split; [|apply loadAndSyncChain_completes]].
  - intros w cc db r db' Hrun.
    destruct (loadAndSyncChain_done _ _ _ _ _ Hrun)
      as (stored & rd & allNews & requested & _ & Hrep & _ & Hr & _).
    simpl in Hr. exists rd. split; [done|].
    rewrite Hr. unfold syncedChain, syncedEnd, resolveEnd. simpl. split.
    + by intros ->.
    + intros ->. split; [done|].
      destruct (truthy (coalesce _ _)); split; done.
  - intros runs. induction runs as [|[w cc] runs IH]; intros db k rec Hkeyed Hrec Hfin Hruns.
    + by exists rec.
    + apply Forall_cons in Hruns as [Hrun Hruns].
      unfold syncAll. cbn [fold_left]. simpl.
      destruct (loadAndSyncChain_stays_finished w cc db k rec Hkeyed Hrec Hfin Hrun)
        as (Hkeyed' & rec1 & Hrec1 & Hfin1).
      by apply (IH _ k rec1).
Qed.

(** C8. Sync atomicity on fetch failure: when the report fetch or the
    paginated news fetch rejects, the sync rejects and the store is the one
    it started from, so neither the chain record nor the last-sync
    timestamp is written; whenever a sync does not complete the store is
    unchanged, and a changed store means both fetches resolved. *)
Theorem sync_atomic_on_fetch_failure :
  (∀ w currentChain db,
     (∃ e, fetchChainReport w (resolveChainId currentChain) = Err e)
     ∨ (∃ e, fetchPages w (patience w) (resolveStart currentChain) Null [] [] = Failed e) →
     ∃ e, loadAndSyncChain w currentChain db = (Failed e, db))
  ∧ (∀ w currentChain db,
       (∀ r, (loadAndSyncChain w currentChain db).1 ≠ Done r) →
       (loadAndSyncChain w currentChain db).2 = db)
  ∧ (∀ w currentChain db,
       (loadAndSyncChain w currentChain db).2 ≠ db →
       (∃ reportData, fetchChainReport w (resolveChainId currentChain) = Ok reportData)
       ∧ ∃ fetched,
           fetchPages w (patience w) (resolveStart currentChain) Null [] [] = Done fetched).
Proof.
  split; [|split].
  - intros w cc db Hfail. unfold loadAndSyncChain.
    destruct (getChain db _) as [stored|e]; [|by exists e].
    destruct (fetchChainReport w _) as [rd|e]; [|by exists e].
    destruct Hfail as [[e He]|[e He]]; [done|].
    unfold fetchAllFactionNews. rewrite He. by exists e.
  - apply loadAndSyncChain_not_done.
  - intros w cc db Hchanged.
    destruct (loadAndSyncChain w cc db) as [o db'] eqn:Hrun.
    destruct o as [r| |].
    + destruct (loadAndSyncChain_done _ _ _ _ _ Hrun)
        as (stored & rd & allNews & requested & _ & Hrep & Hpages & _).
      split; [by exists rd|by exists (allNews, requested)].
    + destruct Hchanged. rewrite <- (loadAndSyncChain_not_done w cc db); rewrite Hrun; done.
    + destruct Hchanged. rewrite <- (loadAndSyncChain_not_done w cc db); rewrite Hrun; done.
Qed.

Lemma reportHits_snoc attackers a :
  reportHits (attackers ++ [a]) = <[attackerKey a := hitEntry a]> (reportHits attackers).
Proof. unfold reportHits. by rewrite fold_left_app. Qed.

Lemma reportHits_absent attackers k :
  (∀ a, a ∈ attackers → attackerKey a ≠ k) → reportHits attackers !! k = None.
Proof.
  induction attackers as [|a attackers IH] using rev_ind; intros Hk; [done|].
  rewrite reportHits_snoc, lookup_insert_ne.
  - apply IH. intros b Hb. apply Hk, elem_of_app. by left.
  - apply Hk, elem_of_app. right. by apply list_elem_of_singleton.
Qed.

(** The entry of a key is that of the last attacker listed under it. *)
Lemma reportHits_last before a after :
  (∀ b, b ∈ after → attackerKey b ≠ attackerKey a) →
  reportHits (before ++ a :: after) !! attackerKey a = Some (hitEntry a).
Proof.
  induction after as [|b after IH] using rev_ind; intros Hlater.
  - rewrite reportHits_snoc. apply lookup_insert_eq.
  - rewrite app_comm_cons, app_assoc, reportHits_snoc, lookup_insert_ne.
    + apply IH. intros c Hc. apply Hlater, elem_of_app. by left.
    + apply Hlater, elem_of_app. right. by apply list_elem_of_singleton.
Qed.


(** C5. Hits replacement: a completed sync stores as [hits] exactly the
    entries of the freshly fetched report, whatever the stored record
    held.  The report is the [chainreport] member of the payload when it
    has one, else the payload; its attackers are those under [attackers],
    else under [attacker], else none.  A key that no attacker has carries
    no entry; the entry of a key is that of the last attacker listed
    under it: the hit count is the [total] of [attacks] or [attacks]
    itself, else [hits], else 0; the respect is the [total] of [respect]
    or [respect] itself, else 0; the name is [name], else [username],
    else the key; and the key is the first of [id], [user_id] and
    [attacker_id] that is not null, as a string.  A report of A at 10
    hits followed by one of A at 15 leaves 15, and a wrapped report
    after it leaves only its own attacker.  A sync completes whenever its
    chain id is a valid key and both fetches resolve. *)
Theorem hits_replaced :
  (∀ w currentChain db r db',
     loadAndSyncChain w currentChain db = (Done r, db') →
     ∃ reportData,
       fetchChainReport w (resolveChainId currentChain) = Ok reportData
       ∧ chains db' !! chainId r = Some r
       ∧ let report :=
           match rd_chainreport reportData with
           | Some chainreport => chainreport
           | None => rd_self reportData
           end in
         let attackers :=
           match rep_attackers report, rep_attacker report with
           | Some listed, _ => listed
           | None, Some listed => listed
           | None, None => []
           end in
         (∀ k, (∀ a, a ∈ attackers → attackerKey a ≠ k) → hits r !! k = None)
         ∧ ∀ before a after,
             attackers = before ++ a :: after →
             (∀ b, b ∈ after → attackerKey b ≠ attackerKey a) →
             ∃ entry,
               hits r !! attackerKey a = Some entry
               ∧ (∀ n, att_attacks a = Some (Total n) → hit_hits entry = n)
               ∧ (∀ n, att_attacks a = Some (Plain n) → hit_hits entry = n)
               ∧ (∀ n, att_attacks a = None → att_hits a = Some n → hit_hits entry = n)
               ∧ (att_attacks a = None → att_hits a = None → hit_hits entry = 0)
               ∧ (∀ n, att_respect a = Some (Total n) → hit_respect entry = n)
               ∧ (∀ n, att_respect a = Some (Plain n) → hit_respect entry = n)
               ∧ (att_respect a = None → hit_respect entry = 0)
               ∧ (∀ name, att_name a = Some name → hit_name entry = name)
               ∧ (∀ name, att_name a = None → att_username a = Some name →
                          hit_name entry = name)
               ∧ (att_name a = None → att_username a = None →
                  hit_name entry = attackerKey a))
  ∧ (∀ a,
       (nullish (att_id a) = false → attackerKey a = ToString (att_id a))
       ∧ (nullish (att_id a) = true → nullish (att_user_id a) = false →
          attackerKey a = ToString (att_user_id a))
       ∧ (nullish (att_id a) = true → nullish (att_user_id a) = true →
          attackerKey a = ToString (att_attacker_id a)))
  ∧ (let first := [Examples.attacker "A" 10; Examples.attacker "B" 3] in
     let second := [Examples.attacker "A" 15] in
     let db1 := syncAll [(Examples.reporting first, Examples.chain7)] Examples.emptyDB in
     let db2 := syncAll [(Examples.reporting second, Examples.chain7)] db1 in
     let db3 := syncAll [(Examples.reportingWrapped, Examples.chain7)] db2 in
     (hits <$> chains db1 !! Num 7)
     = Some {[ "A" := {| hit_hits := 10; hit_respect := 0; hit_name := "A" |};
               "B" := {| hit_hits := 3; hit_respect := 0; hit_name := "B" |} ]}
     ∧ (hits <$> chains db2 !! Num 7)
       = Some {[ "A" := {| hit_hits := 15; hit_respect := 0; hit_name := "A" |} ]}
     ∧ (hits <$> chains db3 !! Num 7)
       = Some {[ "42" := {| hit_hits := 12; hit_respect := 30; hit_name := "Zed" |} ]})
  ∧ (∀ w currentChain db reportData fetched,
       nullish (resolveChainId currentChain) = false →
       fetchChainReport w (resolveChainId currentChain) = Ok reportData →
       fetchPages w (patience w) (resolveStart currentChain) Null [] [] = Done fetched →
       ∃ r db', loadAndSyncChain w currentChain db = (Done r, db')).
Proof.
  split; [|split; [|split; [|apply loadAndSyncChain_completes]]].
  - intros w cc db r db' Hrun.
    destruct (loadAndSyncChain_done _ _ _ _ _ Hrun)
      as (stored & rd & allNews & requested & _ & Hrep & _ & Hr & Hdb).
    simpl in Hr, Hdb. exists rd. split; [done|].
    split; [rewrite Hdb; simpl; apply lookup_insert_eq|].
    assert (hits r = reportHits (attackersOf (reportOf rd))) as Hhits by by rewrite Hr.
    assert (attackersOf (reportOf rd)
            = match rep_attackers (match rd_chainreport rd with
                                   | Some chainreport => chainreport
                                   | None => rd_self rd
                                   end),
                    rep_attacker (match rd_chainreport rd with
                                  | Some chainreport => chainreport
                                  | None => rd_self rd
                                  end) with
              | Some listed, _ => listed
              | None, Some listed => listed
              | None, None => []
              end) as Hlist.
    { unfold attackersOf, reportOf.
      destruct (rd_chainreport rd) as [rep|]; simpl;
        [destruct (rep_attackers rep), (rep_attacker rep)
        |destruct (rep_attackers (rd_self rd)), (rep_attacker (rd_self rd))]; done. }
    cbv zeta. rewrite <- Hlist, Hhits. split; [apply reportHits_absent|].
    intros before a after -> Hlater. exists (hitEntry a).
    split; [by apply reportHits_last|].
    unfold hitEntry. simpl.
    repeat split; intros;
      repeat match goal with H : _ = _ |- _ => rewrite H; clear H end; done.
  - intros a. unfold attackerKey, coalesce.
    repeat split.
    + intros Hid. by rewrite Hid, Hid.
    + intros Hid Huser. by rewrite Hid, Huser.
    + intros Hid Huser. by rewrite Hid, Huser.
  - vm_compute. done.
Qed.


Lemma totals_fold {A} (f g : A → Z) (m : gmap string A) :
  map_fold (λ _ x '(a, b), (a + num_or_0 (f x), b + num_or_0 (g x))) (0, 0) m
  = (sumOver f m, sumOver g m).
Proof.
  unfold sumOver. rewrite map_fold_foldr.
  induction (map_to_list m) as [|[k x] l IH]; [done|].
  simpl. rewrite IH, !num_or_0_id. f_equal; lia.
Qed.

Lemma updateTotals_sums hits consumption :
  updateTotals hits consumption
  = {| total_hits := sumOver hit_hits hits;
       total_respect := sumOver hit_respect hits;
       total_xanax := sumOver cons_xanax consumption;
       total_points := sumOver cons_points consumption |}.
Proof. unfold updateTotals. by rewrite !totals_fold. Qed.

(** C7. Totals derivation: the record a completed sync returns and stores
    has as totals the sums of the hits and respect of its hits entries and
    of the xanax and points of its consumption entries; for hits
    A: (5, 50) and consumption A: (1, 1000) they are (5, 50, 1, 1000). A
    sync completes whenever its chain id is a valid key and both fetches
    resolve. *)
Theorem totals_derived :
  (∀ w currentChain db r db',
     loadAndSyncChain w currentChain db = (Done r, db') →
     totals r
     = {| total_hits := sumOver hit_hits (hits r);
          total_respect := sumOver hit_respect (hits r);
          total_xanax := sumOver cons_xanax (consumption r);
          total_points := sumOver cons_points (consumption r) |}
     ∧ chains db' !! chainId r = Some r)
  ∧ updateTotals
      {[ "A" := {| hit_hits := 5; hit_respect := 50; hit_name := "A" |} ]}
      {[ "A" := {| cons_xanax := 1; cons_points := 1000; cons_name := "A" |} ]}
    = {| total_hits := 5; total_respect := 50; total_xanax := 1; total_points := 1000 |}
  ∧ (∀ w currentChain db reportData fetched,
       nullish (resolveChainId currentChain) = false →
       fetchChainReport w (resolveChainId currentChain) = Ok reportData →
       fetchPages w (patience w) (resolveStart currentChain) Null [] [] = Done fetched →
       ∃ r db', loadAndSyncChain w currentChain db = (Done r, db')).
Proof.
  split; [|split; [|apply loadAndSyncChain_completes]].
  - intros w cc db r db' Hrun.
    destruct (loadAndSyncChain_done _ _ _ _ _ Hrun)
      as (stored & rd & allNews & requested & _ & _ & _ & Hr & Hdb).
    simpl in Hr, Hdb. split.
    + rewrite Hr. simpl. apply updateTotals_sums.
    + rewrite Hdb. simpl. apply lookup_insert_eq.
  - reflexivity.
Qed.

End EngineFacts.

(** Evaluates a sync on example data: the goal continues with the record
    and the store it came to. *)
Ltac sync_completes r db Hrun :=
  match goal with
  | |- context [loadAndSyncChain ?stn ?js ?w ?cc ?db0] =>
      destruct (loadAndSyncChain stn js w cc db0) as [[r| |] db] eqn:Hrun;
      [|exfalso; vm_compute in Hrun; discriminate..]
  end.

Lemma sync_atomic_on_fetch_failure_witness :
  ((∃ e, fetchChainReport Examples.reportDown (resolveChainId Examples.chain7) = Err e)
   ∨ (∃ e, fetchPages Examples.stringToNumber Examples.reportDown
             (patience Examples.reportDown) (resolveStart Examples.chain7) Null [] []
           = Failed e))
  ∧ ∃ e, loadAndSyncChain Examples.stringToNumber Examples.stringify
           Examples.reportDown Examples.chain7 Examples.emptyDB
         = (Failed e, Examples.emptyDB).
Proof.
  assert (∃ e, fetchChainReport Examples.reportDown (resolveChainId Examples.chain7) = Err e)
    as Hdown.
  { exists "HTTP 500". reflexivity. }
  split; [by left|].
  apply (proj1 (sync_atomic_on_fetch_failure Examples.stringToNumber Examples.stringify)
           Examples.reportDown Examples.chain7 Examples.emptyDB).
  by left.
Defined.

Lemma hits_replaced_witness :
  ∃ r db',
    loadAndSyncChain Examples.stringToNumber Examples.stringify
      Examples.reportingWrapped Examples.chain7 Examples.storedDB
    = (Done r, db')
    ∧ chains db' !! chainId r = Some r
    ∧ hits r !! "A" = None
    ∧ ∃ entry,
        hits r !! attackerKey Examples.zed = Some entry
        ∧ hit_hits entry = 12
        ∧ hit_respect entry = 30
        ∧ hit_name entry = "Zed".
Proof.
  sync_completes r db' Hrun.
  exists r, db'. split; [reflexivity|].
  destruct (proj1 (hits_replaced Examples.stringToNumber Examples.stringify)
              _ _ _ r db' Hrun) as (reportData & Hfetch & Hstored & Hreport).
  injection Hfetch as <-. cbv zeta in Hreport. simpl in Hreport.
  destruct Hreport as [Habsent Hentries].
  split; [exact Hstored|]. split.
  { apply Habsent. intros a Ha. apply list_elem_of_singleton in Ha as ->. discriminate. }
  destruct (Hentries [] Examples.zed [] eq_refl) as (entry & Hentry & Hfacts).
  { intros b Hb. by apply elem_of_nil in Hb. }
  destruct Hfacts as (Htotal & _ & _ & _ & Hrespect & _ & _ & _ & Husername & _).
  exists entry. split; [exact Hentry|].
  split; [exact (Htotal 12 eq_refl)|].
  split; [exact (Hrespect 30 eq_refl)|exact (Husername "Zed" eq_refl eq_refl)].
Defined.

Lemma totals_derived_witness :
  ∃ r db',
    loadAndSyncChain Examples.stringToNumber Examples.stringify
      Examples.threePages Examples.chain7 Examples.emptyDB
    = (Done r, db')
    ∧ totals r
      = {| total_hits := sumOver hit_hits (hits r);
           total_respect := sumOver hit_respect (hits r);
           total_xanax := sumOver cons_xanax (consumption r);
           total_points := sumOver cons_points (consumption r) |}
    ∧ chains db' !! chainId r = Some r.
Proof.
  sync_completes r db' Hrun.
  exists r, db'. split; [reflexivity|].
  exact (proj1 (totals_derived Examples.stringToNumber Examples.stringify)
           _ _ _ r db' Hrun).
Defined.

Lemma store_keyed_storedDB : store_keyed Examples.storedDB.
Proof.
  intros k c Hc. simpl in Hc.
  apply lookup_singleton_Some in Hc as [<- <-]. reflexivity.
Qed.


(** C4, the claim refuted. A record of chain 7 that a sync has stored as
    finished, with end 150, is active again with a null end after a later
    sync whose payload reports the chain in progress; and a sync whose
    report carries the end marker 0 sets the end to 0 and the status to
    active. *)
Lemma status_reverts :
  let sync := syncAll Examples.stringToNumber Examples.stringify in
  let db1 := sync [(Examples.threePages, Examples.ended7)] Examples.emptyDB in
  let db2 := sync [(Examples.threePages, Examples.chain7)] db1 in
  let db3 := sync [(Examples.endsAtZero, Examples.ended7)] Examples.emptyDB in
  ((λ r, (status r, chain_end r)) <$> chains db1 !! Num 7) = Some (finished, Num 150)
  ∧ ((λ r, (status r, chain_end r)) <$> chains db2 !! Num 7) = Some (active, Null)
  ∧ ((λ r, (status r, chain_end r)) <$> chains db3 !! Num 7) = Some (active, Num 0).
Proof. vm_compute. repeat split. Qed.

Lemma status_follows_payload_witness :
  ∃ r db',
    loadAndSyncChain Examples.stringToNumber Examples.stringify
      Examples.threePages Examples.ended7 Examples.storedDB = (Done r, db')
    ∧ ∃ reportData,
        fetchChainReport Examples.threePages (resolveChainId Examples.ended7)
        = Ok reportData
        ∧ (truthy (cc_current Examples.ended7) = true →
           chain_end r = Null ∧ status r = active)
        ∧ (truthy (cc_current Examples.ended7) = false →
           chain_end r
           = coalesce (rep_end (reportOf reportData))
               (if isActive Examples.ended7
                then Num (now_resolved Examples.threePages)
                else coalesce (cc_end Examples.ended7)
                       (Num (now_resolved Examples.threePages)))
           ∧ (status r = finished ↔ truthy (chain_end r) = true)).
Proof.
  sync_completes r db' Hrun.
  exists r, db'. split; [reflexivity|].
  exact (proj1 (status_follows_payload Examples.stringToNumber Examples.stringify)
           _ _ _ r db' Hrun).
Defined.

Lemma dedup_idempotent_witness :
  let sync := loadAndSyncChain Examples.stringToNumber Examples.stringify
                Examples.threePages Examples.chain7 in
  store_keyed Examples.emptyDB
  ∧ ∃ r1 db1,
      sync Examples.emptyDB = (Done r1, db1)
      ∧ ∃ r2 db2,
          sync db1 = (Done r2, db2)
          ∧ consumption r2 = consumption r1
          ∧ total_xanax (totals r2) = total_xanax (totals r1)
          ∧ total_points (totals r2) = total_points (totals r1).
Proof.
  intros sync.
  assert (store_keyed Examples.emptyDB) as Hk.
  { intros k c Hc. simpl in Hc. by rewrite lookup_empty in Hc. }
  split; [exact Hk|].
  destruct (sync Examples.emptyDB) as [[r1| |] db1] eqn:Hrun;
    [|exfalso; vm_compute in Hrun; discriminate..].
  exists r1, db1. split; [reflexivity|].
  exact (proj2 (proj2 (dedup_idempotent Examples.stringToNumber Examples.stringify))
           Examples.threePages Examples.chain7 Examples.emptyDB r1 db1 Hk Hrun).
Defined.

(** *** The paginator *)

Section PaginatorFacts.
Variable StringToNumber : string → option Z.

#[local] Abbreviation reachesChainStart := (reachesChainStart StringToNumber).
#[local] Abbreviation scanPage := (scanPage StringToNumber).
#[local] Abbreviation pageContinues := (pageContinues StringToNumber).
#[local] Abbreviation fetchPages := (fetchPages StringToNumber).

(** The inner loop keeps the longest prefix without an item before the
    start bound, and reports whether it met such an item. *)
Lemma scanPage_spec chainStart items :
  ∃ rest,
    items = (scanPage chainStart items).1 ++ rest
    ∧ Forall (λ i, reachesChainStart chainStart i = false) (scanPage chainStart items).1
    ∧ ((scanPage chainStart items).2 = true →
         ∃ i rest', rest = i :: rest' ∧ reachesChainStart chainStart i = true)
    ∧ ((scanPage chainStart items).2 = false → rest = []).
Proof.
  induction items as [|i items (rest & Heq & Hkept & Ht & Hf)]; simpl.
  - exists []. repeat split; try done. 
  - destruct (reachesChainStart chainStart i) eqn:Hi; simpl.
    + exists (i :: items). repeat split; try done. intros _. by exists i, items.
    + destruct (scanPage chainStart items) as [kept reached]. simpl in *.
      exists rest. repeat split; try done.
      * by rewrite Heq at 1.
      * by constructor.
Qed.

Lemma scanPage_all chainStart items :
  (scanPage chainStart items).2 = false → (scanPage chainStart items).1 = items.
Proof.
  intros Hf. destruct (scanPage_spec chainStart items) as (rest & Heq & _ & _ & Hrest).
  rewrite (Hrest Hf), app_nil_r in Heq. done.
Qed.

Lemma fetchPages_walk w chainStart pages last : ∀ fuel before allNews requested,
  served w before (pages ++ [last]) →
  Forall (λ p, pageContinues chainStart p = true) pages →
  pageContinues chainStart last = false →
  (length pages < fuel)%nat →
  fetchPages w fuel chainStart before allNews requested
  = Done (allNews ++ concat (page_news <$> pages) ++ (scanPage chainStart (page_news last)).1,
          requested ++ before :: (page_prev <$> pages)).
Proof.
  induction pages as [|p pages IH]; intros fuel before allNews requested Hs Hc Hl Hfuel.
  - destruct fuel as [|fuel]; [simpl in Hfuel; lia|].
    destruct Hs as [Hp _]. simpl. rewrite Hp.
    unfold pageContinues in Hl.
    destruct (scanPage chainStart (page_news last)) as [kept reached]. simpl in *.
    destruct (truthy (page_prev last)), reached; simpl in *; done.
  - destruct fuel as [|fuel]; [simpl in Hfuel; lia|].
    destruct Hs as [Hp Hs]. apply Forall_cons in Hc as [Hpc Hc].
    cbn [fetchPages]. rewrite Hp.
    unfold pageContinues in Hpc.
    apply andb_true_iff in Hpc as [Hprev Hreach]. apply negb_true_iff in Hreach.
    pose proof (scanPage_all _ _ Hreach) as Hall.
    destruct (scanPage chainStart (page_news p)) as [kept reached]. simpl in *.
    subst. rewrite Hprev. simpl.
    rewrite (IH fuel) by (done || lia).
    by rewrite <- !app_assoc.
Qed.

Lemma scanPage_reached chainStart items :
  (scanPage chainStart items).2 = true
  ↔ ∃ item, item ∈ items ∧ reachesChainStart chainStart item = true.
Proof.
  induction items as [|i items IH]; simpl.
  - split; [done|]. intros (? & []%elem_of_nil & _).
  - destruct (reachesChainStart chainStart i) eqn:Hi; simpl.
    + split; [|done]. intros _. exists i. split; [apply elem_of_cons; by left|done].
    + destruct (scanPage chainStart items) as [kept reached]. simpl in *.
      rewrite IH. split.
      * intros (x & Hx & Hr). exists x. split; [apply elem_of_cons; by right|done].
      * intros (x & [->|Hx]%elem_of_cons & Hr); [congruence|]. by exists x.
Qed.

(** C2. Pagination stop condition: within a page the paginator keeps the
    items before the first one whose timestamp is strictly below the start
    bound and drops the rest; the loop breaks exactly at the first page that
    holds such an item or carries no previous-page cursor, having collected
    every item of the pages before it and requested only their cursors; and
    on the pages P1 (100-90), P2 (89-80), P3 (79-70) with start bound 85 it
    collects P1 and the items 89-85 of P2 and never requests P3. *)
Theorem pagination_stop :
  (∀ chainStart items,
     ∃ rest,
       items = (scanPage chainStart items).1 ++ rest
       ∧ Forall (λ i, reachesChainStart chainStart i = false) (scanPage chainStart items).1
       ∧ ((scanPage chainStart items).2 = true →
            ∃ i rest', rest = i :: rest' ∧ reachesChainStart chainStart i = true)
       ∧ ((scanPage chainStart items).2 = false → rest = []))
  ∧ (∀ chainStart page,
       pageContinues chainStart page = false
       ↔ truthy (page_prev page) = false
         ∨ ∃ item, item ∈ page_news page ∧ reachesChainStart chainStart item = true)
  ∧ (∀ w chainStart pages last fuel,
       served w Null (pages ++ [last]) →
       Forall (λ p, pageContinues chainStart p = true) pages →
       pageContinues chainStart last = false →
       (length pages < fuel)%nat →
       fetchPages w fuel chainStart Null [] []
       = Done (concat (page_news <$> pages) ++ (scanPage chainStart (page_news last)).1,
               Null :: (page_prev <$> pages)))
  ∧ fetchPages Examples.threePages (patience Examples.threePages) (Num 85) Null [] []
    = Done (page_news Examples.P1 ++ Examples.descending 89 5, [Null; Str "p2"]).
Proof.
  split; [|split; [|split]].
  - apply scanPage_spec.
  - intros chainStart page. unfold pageContinues.
    rewrite andb_false_iff, negb_false_iff, scanPage_reached. done.
  - intros w chainStart pages last fuel Hs Hc Hl Hfuel.
    by rewrite (fetchPages_walk w chainStart pages last fuel Null [] []).
  - reflexivity.
Qed.

End PaginatorFacts.

Lemma pagination_stop_witness :
  served Examples.threePages Null ([Examples.P1] ++ [Examples.P2])
  ∧ Forall (λ p, pageContinues Examples.stringToNumber (Num 85) p = true) [Examples.P1]
  ∧ pageContinues Examples.stringToNumber (Num 85) Examples.P2 = false
  ∧ fetchPages Examples.stringToNumber Examples.threePages 2 (Num 85) Null [] []
    = Done (concat (page_news <$> [Examples.P1])
              ++ (scanPage Examples.stringToNumber (Num 85) (page_news Examples.P2)).1,
            Null :: (page_prev <$> [Examples.P1])).
Proof.
  assert (served Examples.threePages Null ([Examples.P1] ++ [Examples.P2])) as Hs.
  { repeat split. }
  assert (Forall (λ p, pageContinues Examples.stringToNumber (Num 85) p = true)
            [Examples.P1]) as Hc.
  { repeat constructor. }
  assert (pageContinues Examples.stringToNumber (Num 85) Examples.P2 = false) as Hl.
  { reflexivity. }
  split; [exact Hs|]. split; [exact Hc|]. split; [exact Hl|].
  apply (proj1 (proj2 (proj2 (pagination_stop Examples.stringToNumber)))
           Examples.threePages (Num 85) [Examples.P1] Examples.P2 2%nat Hs Hc Hl).
  simpl. lia.
Defined.

(** ** Further properties of the engine *)

(** *** Sums over a mapping *)

Lemma sumOver_map_fold {A} (f : A → Z) (m : gmap string A) :
  sumOver f m = map_fold (λ _ x acc, f x + acc) 0 m.
Proof.
  unfold sumOver. rewrite map_fold_foldr.
  induction (map_to_list m) as [|[k x] l IH]; [done|]. simpl. by rewrite IH.
Qed.

Lemma sumOver_empty {A} (f : A → Z) : sumOver f (∅ : gmap string A) = 0.
Proof. by rewrite sumOver_map_fold, map_fold_empty. Qed.

Lemma sumOver_insert_fresh {A} (f : A → Z) (m : gmap string A) i x :
  m !! i = None → sumOver f (<[i := x]> m) = f x + sumOver f m.
Proof.
  intros Hi. rewrite !sumOver_map_fold.
  rewrite map_fold_insert_L; [reflexivity| |exact Hi].
  intros j1 j2 z1 z2 y _ _ _. lia.
Qed.

(** Writing an entry changes a sum by the difference of the entry. *)
Lemma sumOver_insert {A} (f : A → Z) (m : gmap string A) i x :
  sumOver f (<[i := x]> m) = sumOver f m + f x - default 0 (f <$> m !! i).
Proof.
  destruct (m !! i) as [y|] eqn:Hi; simpl.
  - rewrite <- (insert_delete_id m i y Hi) at 2.
    rewrite <- insert_delete_eq.
    rewrite !sumOver_insert_fresh by apply lookup_delete_eq. lia.
  - rewrite sumOver_insert_fresh by done. lia.
Qed.

Lemma sumOver_zero {A} (m : gmap string A) : sumOver (λ _, 0) m = 0.
Proof. unfold sumOver. induction (map_to_list m) as [|? l IH]; simpl; lia. Qed.

(** A loop that rewrites the entry of each key of [m] from the key, the
    datum and the current entry. *)
Lemma map_fold_keyed_lookup {A B} (f : string → A → option B → B)
    (c0 : gmap string B) (m : gmap string A) id :
  map_fold (λ k d c, <[k := f k d (c !! k)]> c) c0 m !! id
  = match m !! id with
    | Some d => Some (f id d (c0 !! id))
    | None => c0 !! id
    end.
Proof.
  revert id.
  apply (map_fold_weak_ind (λ r m, ∀ id,
    r !! id = match m !! id with
              | Some d => Some (f id d (c0 !! id))
              | None => c0 !! id
              end)).
  - intros id. by rewrite lookup_empty.
  - intros i x m' r Hi IH id. destruct (decide (i = id)) as [->|Hne].
    + by rewrite !lookup_insert_eq, IH, Hi.
    + rewrite !lookup_insert_ne by done. apply IH.
Qed.

(** Such a loop changes a sum by what each rewrite adds. *)
Lemma sumOver_map_fold_update {A B} (f : string → A → option B → B)
    (g : B → Z) (h : A → Z) (c0 : gmap string B) (m : gmap string A) :
  (∀ k d cur, g (f k d cur) = default 0 (g <$> cur) + h d) →
  sumOver g (map_fold (λ k d c, <[k := f k d (c !! k)]> c) c0 m)
  = sumOver g c0 + sumOver h m.
Proof.
  intros Hstep.
  apply (map_fold_weak_ind (λ r m, sumOver g r = sumOver g c0 + sumOver h m)).
  - rewrite sumOver_empty. lia.
  - intros i x m' r Hi IH.
    rewrite sumOver_insert, Hstep, IH, sumOver_insert_fresh by done. lia.
Qed.

(** *** The store, [js/db.js] *)

(** X1. The store gives back what was put.  For a record whose [chainId]
    is a valid key (the store rejects any other), [getChain] after
    [saveChain] returns the saved record under its [chainId] and leaves
    every other key and the whole config as they were, and the saved
    record is among [getAllChains]; [getConfig] after [setConfig] returns
    the value set and leaves every other key and every chain as they
    were; and the records of [getAllChains] have pairwise distinct
    [chainId]s when each is stored under its own. *)
Theorem store_round_trip db chain key v :
  nullish (chainId chain) = false →
  getChain (saveChain db chain) (chainId chain) = Ok (Some chain)
  ∧ (∀ k, k ≠ chainId chain → getChain (saveChain db chain) k = getChain db k)
  ∧ (∀ k, getConfig (saveChain db chain) k = getConfig db k)
  ∧ getConfig (setConfig db key v) key = v
  ∧ (∀ k, k ≠ key → getConfig (setConfig db key v) k = getConfig db k)
  ∧ (∀ k, getChain (setConfig db key v) k = getChain db k)
  ∧ chain ∈ getAllChains (saveChain db chain)
  ∧ (store_keyed db → NoDup (chainId <$> getAllChains db)).
Proof.
  intros Hvalid. repeat split.
  - by apply getChain_saved.
  - intros k Hk. unfold getChain, saveChain. simpl. by rewrite lookup_insert_ne.
  - unfold getConfig, setConfig. simpl. by rewrite lookup_insert_eq.
  - intros k Hk. unfold getConfig, setConfig. simpl. by rewrite lookup_insert_ne.
  - unfold getAllChains, saveChain. simpl. apply list_elem_of_fmap.
    exists (chainId chain, chain). split; [done|].
    apply elem_of_map_to_list, lookup_insert_eq.
  - intros Hkeyed. unfold getAllChains.
    assert ((chainId <$> (map_to_list (chains db)).*2) = (map_to_list (chains db)).*1) as ->.
    { rewrite <- list_fmap_compose. apply list_fmap_ext.
      intros i [k c] Hkc. simpl. apply Hkeyed.
      apply elem_of_map_to_list. by eapply list_elem_of_lookup_2. }
    apply NoDup_fst_map_to_list.
Qed.

(** *** The rate limiter and the fetch client, [js/api.js] *)

Section LimiterFacts.
Import Api.

Lemma purgeBefore_spec cutoff ts :
  ∃ dropped,
    ts = dropped ++ purgeBefore cutoff ts
    ∧ Forall (λ t, t < cutoff) dropped
    ∧ match purgeBefore cutoff ts with
      | t :: _ => cutoff ≤ t
      | [] => True
      end.
Proof.
  induction ts as [|t ts (dropped & Heq & Hd & Hhead)]; simpl.
  - by exists [].
  - destruct (Z.ltb_spec t cutoff).
    + exists (t :: dropped). repeat split; [by rewrite Heq at 1|by constructor|done].
    + by exists [].
Qed.

Lemma StronglySorted_head_le (t : Z) ts :
  StronglySorted Z.le (t :: ts) → Forall (λ u, t ≤ u) ts.
Proof. intros H. by apply StronglySorted_inv in H as [_ H]. Qed.

(** X2. [purgeOldTimestamps] drops a prefix of the recorded timestamps,
    every one of them older than the window of 60000 ms; when the
    timestamps are in ascending order, as [push(Date.now())] leaves them
    under a clock that does not go back, every timestamp it keeps lies
    within the window; and purging twice at the same time is purging
    once. *)
Theorem purge_keeps_window now ts :
  ∃ dropped,
    ts = dropped ++ purgeOldTimestamps now ts
    ∧ Forall (λ t, t < now - WINDOW_MS) dropped
    ∧ (StronglySorted Z.le ts →
       Forall (λ t, now - WINDOW_MS ≤ t) (purgeOldTimestamps now ts))
    ∧ purgeOldTimestamps now (purgeOldTimestamps now ts) = purgeOldTimestamps now ts.
Proof.
  unfold purgeOldTimestamps.
  destruct (purgeBefore_spec (now - WINDOW_MS) ts) as (dropped & Heq & Hd & Hhead).
  exists dropped. repeat split; try done.
  - intros Hsorted. rewrite Heq in Hsorted.
    assert (StronglySorted Z.le (purgeBefore (now - WINDOW_MS) ts)) as Hs.
    { clear -Hsorted. induction dropped as [|d dropped IH]; [done|].
      apply IH. simpl in Hsorted. by apply StronglySorted_inv in Hsorted as [? _]. }
    destruct (purgeBefore (now - WINDOW_MS) ts) as [|t kept]; [done|].
    constructor; [done|].
    apply StronglySorted_head_le in Hs. eapply Forall_impl; [exact Hs|].
    simpl. intros u Hu. lia.
  - destruct (purgeBefore (now - WINDOW_MS) ts) as [|t kept]; [done|].
    simpl. destruct (Z.ltb_spec t (now - WINDOW_MS)); [lia|done].
Qed.

(** X3. The two ends of the window disagree by one millisecond.  With the
    limit reached and the clock reading exactly 60000 ms after the oldest
    timestamp, [waitUntilExpired] does not sleep and [purgeOldTimestamps]
    keeps that timestamp, so a round of the loop of [waitForRateLimit]
    changes nothing; one millisecond later the timestamp is dropped. *)
Theorem window_boundary_round t0 rest readings slept :
  (RATE_LIMIT ≤ length (t0 :: rest))%nat →
  waitUntilExpired (t0 + WINDOW_MS) t0 = 0
  ∧ purgeOldTimestamps (t0 + WINDOW_MS) (t0 :: rest) = t0 :: rest
  ∧ waitLoop ((t0 + WINDOW_MS) :: (t0 + WINDOW_MS) :: readings) (t0 :: rest) slept
    = waitLoop readings (t0 :: rest) (slept ++ [0])
  ∧ purgeOldTimestamps (t0 + WINDOW_MS + 1) (t0 :: rest)
    = purgeOldTimestamps (t0 + WINDOW_MS + 1) rest.
Proof.
  intros Hfull.
  assert (waitUntilExpired (t0 + WINDOW_MS) t0 = 0) as Hwait.
  { unfold waitUntilExpired. destruct (Z.leb_spec (WINDOW_MS - (t0 + WINDOW_MS - t0)) 0); lia. }
  assert (purgeOldTimestamps (t0 + WINDOW_MS) (t0 :: rest) = t0 :: rest) as Hpurge.
  { unfold purgeOldTimestamps. simpl.
    destruct (Z.ltb_spec t0 (t0 + WINDOW_MS - WINDOW_MS)); [lia|done]. }
  repeat split; try done.
  - cbn [waitLoop]. rewrite Hwait, Hpurge.
    destruct (Nat.ltb_spec (length (t0 :: rest)) RATE_LIMIT); [lia|done].
  - unfold purgeOldTimestamps. simpl.
    destruct (Z.ltb_spec t0 (t0 + WINDOW_MS + 1 - WINDOW_MS)); [done|lia].
Qed.

Lemma waitLoop_spec n : ∀ readings ts slept ts1 rest slept1,
  (length readings ≤ n)%nat →
  waitLoop readings ts slept = Some (ts1, rest, slept1) →
  ∃ used dropped,
    readings = used ++ rest
    ∧ ts = dropped ++ ts1
    ∧ (length ts1 < RATE_LIMIT)%nat
    ∧ Forall (λ t, ∃ r, r ∈ used ∧ t < r - WINDOW_MS) dropped.
Proof.
  induction n as [|n IH]; intros readings ts slept ts1 rest slept1 Hn.
  - destruct readings; [|simpl in Hn; lia]. simpl.
    destruct (Nat.ltb_spec (length ts) RATE_LIMIT); [|done].
    intros [= <- <- <-]. by exists [], [].
  - destruct readings as [|r1 readings].
    { simpl. destruct (Nat.ltb_spec (length ts) RATE_LIMIT); [|done].
      intros [= <- <- <-]. by exists [], []. }
    cbn [waitLoop].
    destruct (Nat.ltb_spec (length ts) RATE_LIMIT).
    { intros [= <- <- <-]. by exists [], []. }
    destruct readings as [|r2 readings]; [done|].
    intros Hloop. apply IH in Hloop as (used & dropped & -> & Hts & Hlen & Hd);
      [|simpl in Hn; lia].
    destruct (purgeBefore_spec (r2 - WINDOW_MS) ts) as (d0 & Hd0 & Hold & _).
    change (purgeBefore (r2 - WINDOW_MS) ts) with (purgeOldTimestamps r2 ts) in Hd0.
    exists (r1 :: r2 :: used), (d0 ++ dropped). repeat split; try done.
    + rewrite Hd0 at 1. rewrite Hts. by rewrite app_assoc.
    + apply Forall_app. split.
      * eapply Forall_impl; [exact Hold|]. simpl. intros t Ht. exists r2.
        split; [|done]. apply elem_of_cons. right. apply elem_of_cons. by left.
      * eapply Forall_impl; [exact Hd|]. simpl. intros t (r & Hr & Ht). exists r.
        split; [|done]. apply elem_of_cons. right. apply elem_of_cons. by right.
Qed.

Lemma StronglySorted_before (l1 : list Z) x l2 :
  StronglySorted Z.le (l1 ++ x :: l2) → ∀ y, y ∈ l1 → y ≤ x.
Proof.
  induction l1 as [|a l1 IH]; intros Hs y Hy; [by apply elem_of_nil in Hy|].
  simpl in Hs. apply StronglySorted_inv in Hs as [Hs Ha].
  apply elem_of_cons in Hy as [->|Hy]; [|by apply IH].
  rewrite Forall_forall in Ha. apply Ha. apply elem_of_app. right.
  apply elem_of_cons. by left.
Qed.

(** X4. A call that runs alone, under a clock that does not go back, is
    let through only within the limit: when [waitForRateLimit] returns and
    the call records its timestamp [now], at most 50 timestamps are
    recorded, every timestamp dropped on the way is older than the window
    that ends at [now], and at most 50 of the calls recorded before,
    together with this one, fall in that window. *)
Theorem acquire_window readings ts ts' rest :
  StronglySorted Z.le readings →
  acquire readings ts = Some (ts', rest) →
  ∃ dropped kept now,
    ts = dropped ++ kept
    ∧ ts' = kept ++ [now]
    ∧ (length ts' ≤ RATE_LIMIT)%nat
    ∧ Forall (λ t, t < now - WINDOW_MS) dropped
    ∧ (length (filter (λ t : Z, (now - WINDOW_MS ≤ t)%Z) (ts ++ [now])) ≤ RATE_LIMIT)%nat.
Proof.
  intros Hsorted. unfold acquire, waitForRateLimit.
  destruct readings as [|r0 readings]; [done|].
  destruct (waitLoop readings (purgeOldTimestamps r0 ts) []) as [[[ts1 rest1] slept]|] eqn:Hloop;
    [|done].
  destruct rest1 as [|now rest1]; [done|]. intros [= <- <-].
  apply (waitLoop_spec (length readings)) in Hloop
    as (used & dropped & -> & Hts & Hlen & Hd); [|done].
  destruct (purgeBefore_spec (r0 - WINDOW_MS) ts) as (d0 & Hd0 & Hold & _).
  change (purgeBefore (r0 - WINDOW_MS) ts) with (purgeOldTimestamps r0 ts) in Hd0.
  assert (∀ r, r ∈ r0 :: used → r ≤ now) as Hle.
  { apply (StronglySorted_before (r0 :: used) now rest1). by rewrite <- app_comm_cons. }
  assert (Forall (λ t, t < now - WINDOW_MS) (d0 ++ dropped)) as Hdropped.
  { apply Forall_app. split.
    - eapply Forall_impl; [exact Hold|]. simpl. intros t Ht.
      specialize (Hle r0 ltac:(apply elem_of_cons; by left)). lia.
    - eapply Forall_impl; [exact Hd|]. simpl. intros t (r & Hr & Ht).
      specialize (Hle r ltac:(apply elem_of_cons; by right)). lia. }
  exists (d0 ++ dropped), ts1, now. repeat split; try done.
  - rewrite Hd0 at 1. rewrite Hts. by rewrite app_assoc.
  - rewrite length_app. simpl. lia.
  - rewrite Hd0 at 1. rewrite Hts. rewrite app_assoc, <- (app_assoc _ ts1).
    rewrite filter_app.
    assert (filter (λ t, now - WINDOW_MS ≤ t) (d0 ++ dropped) = []) as ->.
    { clear -Hdropped. induction (d0 ++ dropped) as [|t l IH]; [done|].
      apply Forall_cons in Hdropped as [Ht Hl]. rewrite filter_cons.
      rewrite decide_False by lia. by apply IH. }
    simpl. etrans; [apply length_filter|]. rewrite length_app. simpl. lia.
Qed.

Lemma acquire_length readings ts ts' rest :
  acquire readings ts = Some (ts', rest) → (length ts' ≤ RATE_LIMIT)%nat.
Proof.
  unfold acquire, waitForRateLimit.
  destruct readings as [|r0 readings]; [done|].
  destruct (waitLoop readings (purgeOldTimestamps r0 ts) []) as [[[ts1 rest1] slept]|] eqn:Hloop;
    [|done].
  destruct rest1 as [|now rest1]; [done|]. intros [= <- <-].
  apply (waitLoop_spec (length readings)) in Hloop
    as (used & dropped & _ & _ & Hlen & _); [|done].
  rewrite length_app. simpl. lia.
Qed.

Context {Payload : Type}.

Lemma fetchWith_once again retried (net : Net Payload) out net' :
  fetchWith Payload again retried net = Some (out, net') →
  ∃ reply rest ts rs,
    replies _ net = reply :: rest
    ∧ acquire (readings _ net) (timestamps _ net) = Some (ts, rs)
    ∧ let after := {| timestamps := ts; readings := rs; replies := rest |} in
      if throttled reply && negb retried then again after = Some (out, net')
      else out = settle reply ∧ net' = after.
Proof.
  unfold fetchWith.
  destruct (acquire _ _) as [[ts rs]|]; [|done].
  destruct (replies _ net) as [|reply rest]; [done|].
  intros H. exists reply, rest, ts, rs. repeat split; try done. simpl.
  destruct reply as [m|status body]; simpl in *.
  - by injection H as <- <-.
  - destruct body as [[[e|] payload]|]; simpl in *;
      try (destruct (te_code e =? 5)); destruct (status =? 429), retried; simpl in *;
      try done; by injection H as <- <-.
Qed.

Lemma settle_removeKey (reply : Reply Payload) err :
  settle reply = Threw _ err →
  (thrown_removeKey err = true
   ↔ ∃ c, thrown_code err = Some c ∧ c ∈ [2; 12; 13; 18]).
Proof.
  destruct reply as [m|status body]; simpl.
  - intros [= <-]. simpl. split; [done|]. by intros (c & [=] & _).
  - destruct (body ≫= data_error Payload) as [e|]; [|done].
    intros [= <-]. simpl. rewrite bool_decide_eq_true. split.
    + intros Hc. by exists (te_code e).
    + by intros (c & [= <-] & Hc).
Qed.

(** X5. For a call of [fetchWithRateLimit] that runs alone, no other
    call of the client being in flight: it retries at most once, and only
    an answer it takes as rate limiting (error code 5 or status 429) on a
    call that is not itself the retry.  It consumes one answer or two,
    and its outcome is that of the last one, which is never retried: a
    body with an error is thrown, anything else is returned as data, a
    second 429 included.  Each attempt passes the limiter, so for such a
    call at most 50 timestamps are recorded afterwards; and the error
    thrown carries [removeKey] exactly when its code is 2, 12, 13 or
    18. *)
Theorem fetch_retries_once retried (net : Net Payload) out net' :
  fetchWithRateLimit Payload retried net = Some (out, net') →
  ∃ used,
    replies _ net = used ++ replies _ net'
    ∧ ((∃ r, used = [r] ∧ (retried = true ∨ throttled r = false) ∧ out = settle r)
       ∨ (∃ r1 r2, used = [r1; r2] ∧ retried = false ∧ throttled r1 = true
                   ∧ out = settle r2))
    ∧ (length (timestamps _ net') ≤ RATE_LIMIT)%nat
    ∧ (∀ err, out = Threw _ err →
         (thrown_removeKey err = true
          ↔ ∃ c, thrown_code err = Some c ∧ c ∈ [2; 12; 13; 18])).
Proof.
  unfold fetchWithRateLimit. intros Hcall.
  apply fetchWith_once in Hcall
    as (r1 & rest1 & ts1 & rs1 & Hreplies & Hacq & Hcall). simpl in Hcall.
  destruct (throttled r1 && negb retried) eqn:Hretry.
  - apply andb_true_iff in Hretry as [Hthr Hnot]. apply negb_true_iff in Hnot.
    apply fetchWith_once in Hcall
      as (r2 & rest2 & ts2 & rs2 & Hreplies2 & Hacq2 & Hcall). simpl in *.
    rewrite andb_false_r in Hcall. destruct Hcall as [-> ->]. simpl.
    exists [r1; r2]. rewrite Hreplies, Hreplies2.
    split; [done|]. split; [right; by exists r1, r2|].
    split; [by eapply acquire_length|]. intros err. apply settle_removeKey.
  - destruct Hcall as [-> ->]. simpl.
    exists [r1]. rewrite Hreplies.
    split; [done|]. split.
    { left. exists r1. split; [done|]. split; [|done].
      apply andb_false_iff in Hretry as [?|Hr]; [by right|left].
      by apply negb_false_iff in Hr. }
    split; [by eapply acquire_length|]. intros err. apply settle_removeKey.
Qed.

End LimiterFacts.

Lemma window_boundary_round_witness :
  (Api.RATE_LIMIT ≤ length (0 :: replicate 49 1000)%Z)%nat
  ∧ Api.waitUntilExpired (0 + Api.WINDOW_MS) 0 = 0
  ∧ Api.purgeOldTimestamps (0 + Api.WINDOW_MS) (0 :: replicate 49 1000)
    = 0 :: replicate 49 1000
  ∧ Api.waitLoop ((0 + Api.WINDOW_MS) :: (0 + Api.WINDOW_MS) :: [60001; 60001])
      (0 :: replicate 49 1000) []
    = Api.waitLoop [60001; 60001] (0 :: replicate 49 1000) ([] ++ [0])
  ∧ Api.purgeOldTimestamps (0 + Api.WINDOW_MS + 1) (0 :: replicate 49 1000)
    = Api.purgeOldTimestamps (0 + Api.WINDOW_MS + 1) (replicate 49 1000).
Proof.
  assert ((Api.RATE_LIMIT ≤ length (0 :: replicate 49 1000)%Z)%nat) as Hfull.
  { vm_compute. lia. }
  split; [exact Hfull|].
  exact (window_boundary_round 0 (replicate 49 1000) [60001; 60001] [] Hfull).
Defined.

Lemma acquire_window_witness :
  StronglySorted Z.le [100; 100; 60001; 60001; 60002]
  ∧ Api.acquire [100; 100; 60001; 60001; 60002] Examples.fullWindow
    = Some ([60001], [60002])
  ∧ ∃ dropped kept now,
      Examples.fullWindow = dropped ++ kept
      ∧ [60001] = kept ++ [now]
      ∧ (length [60001]%Z ≤ Api.RATE_LIMIT)%nat
      ∧ Forall (λ t, t < now - Api.WINDOW_MS) dropped
      ∧ (length (filter (λ t : Z, (now - Api.WINDOW_MS ≤ t)%Z)
                   (Examples.fullWindow ++ [now])) ≤ Api.RATE_LIMIT)%nat.
Proof.
  assert (StronglySorted Z.le [100; 100; 60001; 60001; 60002]) as Hs.
  { repeat constructor; lia. }
  assert (Api.acquire [100; 100; 60001; 60001; 60002] Examples.fullWindow
          = Some ([60001], [60002])) as Ha.
  { reflexivity. }
  split; [exact Hs|]. split; [exact Ha|].
  exact (acquire_window _ _ _ _ Hs Ha).
Defined.

Lemma fetch_retries_once_witness :
  let out := Api.Returned unit {| Api.data_error := None; Api.data_payload := None |} in
  let net' := {| Api.timestamps := [0; 1]; Api.readings := []; Api.replies := [] |} in
  Api.fetchWithRateLimit unit false Examples.throttledTwice = Some (out, net')
  ∧ ∃ used,
      Api.replies _ Examples.throttledTwice = used ++ Api.replies _ net'
      ∧ ((∃ r, used = [r] ∧ (false = true ∨ Api.throttled r = false)
               ∧ out = Api.settle r)
         ∨ (∃ r1 r2, used = [r1; r2] ∧ false = false ∧ Api.throttled r1 = true
                     ∧ out = Api.settle r2))
      ∧ (length (Api.timestamps _ net') ≤ Api.RATE_LIMIT)%nat
      ∧ (∀ err, out = Api.Threw _ err →
           (Api.thrown_removeKey err = true
            ↔ ∃ c, Api.thrown_code err = Some c ∧ c ∈ [2; 12; 13; 18])).
Proof.
  intros out net'.
  assert (Api.fetchWithRateLimit unit false Examples.throttledTwice = Some (out, net'))
    as Hcall.
  { reflexivity. }
  split; [exact Hcall|].
  exact (fetch_retries_once false Examples.throttledTwice out net' Hcall).
Defined.

(** *** The shape of an actor key *)

Lemma trimStart_clean s : startsClean (trimStart s).
Proof.
  induction s as [|c r IH]; [done|]. simpl.
  by destruct (isWhiteSpace c) eqn:Hc.
Qed.

Lemma trimStart_id s : startsClean s → trimStart s = s.
Proof. destruct s as [|c r]; [done|]. simpl. by intros ->. Qed.

Lemma trimEnd_clean s : startsClean s → startsClean (trimEnd s).
Proof.
  destruct s as [|c r]; [done|]. simpl. intros Hc.
  destruct (trimEnd r); [by rewrite Hc|done].
Qed.

Lemma trimEnd_idem s : trimEnd (trimEnd s) = trimEnd s.
Proof.
  assert (∀ c r, trimEnd (String c r)
                 = match trimEnd r with
                   | EmptyString =>
                       if isWhiteSpace c then EmptyString else String c EmptyString
                   | r' => String c r'
                   end) as Hunfold by done.
  induction s as [|c r IH]; [done|]. rewrite Hunfold.
  destruct (trimEnd r) as [|c' r'] eqn:Hr.
  - destruct (isWhiteSpace c) eqn:Hc; [done|]. simpl. by rewrite Hc.
  - by rewrite Hunfold, IH.
Qed.

Lemma trim_idem s : trim (trim s) = trim s.
Proof.
  unfold trim.
  rewrite (trimStart_id (trimEnd (trimStart s))).
  - apply trimEnd_idem.
  - apply trimEnd_clean, trimStart_clean.
Qed.

Lemma noWhiteSpace_trim s : noWhiteSpace s = true → trim s = s.
Proof.
  unfold noWhiteSpace, trim. intros Hs.
  assert (trimStart s = s) as ->.
  { destruct s as [|c r]; [done|]. simpl in *.
    apply andb_true_iff in Hs as [Hc _]. apply negb_true_iff in Hc. by rewrite Hc. }
  induction s as [|c r IH]; [done|]. simpl in *.
  apply andb_true_iff in Hs as [Hc Hr]. apply negb_true_iff in Hc.
  rewrite (IH Hr). destruct r; [by rewrite Hc|done].
Qed.

Lemma allDigits_noWhiteSpace s : allDigits s = true → noWhiteSpace s = true.
Proof.
  unfold noWhiteSpace. induction s as [|c r IH]; [done|]. simpl.
  intros [Hc Hr]%andb_true_iff. apply isDigit_plain in Hc as (-> & _). simpl. auto.
Qed.

Lemma splitWsFrom_noWhiteSpace s : ∀ b p,
  p ∈ splitWsFrom b s → noWhiteSpace p = true.
Proof.
  induction s as [|c r IH]; intros b p; simpl.
  - by intros ->%list_elem_of_singleton.
  - destruct (isWhiteSpace c) eqn:Hc.
    + destruct b; [by apply IH|].
      intros [->|Hp]%elem_of_cons; [done|by eapply IH].
    + destruct (splitWsFrom false r) as [|q qs] eqn:Hq.
      * intros ->%list_elem_of_singleton. unfold noWhiteSpace. simpl. by rewrite Hc.
      * intros [->|Hp]%elem_of_cons.
        -- unfold noWhiteSpace. simpl. rewrite Hc. simpl.
           apply (IH false q). rewrite Hq. apply elem_of_cons. by left.
        -- apply (IH false p). rewrite Hq. apply elem_of_cons. by right.
Qed.

Lemma extractMemberName_trimmed text :
  trim (extractMemberName text) = extractMemberName text.
Proof.
  unfold extractMemberName. destruct (0 <? indexOf " used " text); [apply trim_idem|].
  destruct (filterBoolean _) as [|w ws] eqn:Hwords; [done|].
  apply noWhiteSpace_trim.
  assert (w ∈ filterBoolean (splitWs (replaceTags " " (trim text)))) as Hin.
  { rewrite Hwords. apply elem_of_cons. by left. }
  unfold filterBoolean in Hin. apply list_elem_of_filter in Hin as [_ Hin].
  by eapply splitWsFrom_noWhiteSpace.
Qed.

Lemma matchProfileAt_digits s g1 g2 :
  matchProfileAt s = Some (g1, g2) → allDigits g1 = true.
Proof.
  unfold matchProfileAt. destruct (stripPrefixCI _ s) as [r|]; [|done].
  pose proof (span_isDigit_allDigits r) as Hd.
  destruct (span isDigit r) as [ds r']. destruct ds as [|c ds]; [done|].
  by intros [= <- _].
Qed.

Lemma matchProfile_digits s g1 g2 :
  matchProfile s = Some (g1, g2) → allDigits g1 = true.
Proof.
  assert (∀ s, matchProfile s
               = match matchProfileAt s with
                 | Some m => Some m
                 | None => match s with
                           | EmptyString => None
                           | String _ r => matchProfile r
                           end
                 end) as Hunfold by by intros [].
  induction s as [|c r IH]; rewrite Hunfold.
  - destruct (matchProfileAt EmptyString) as [[a b]|] eqn:Hm; [|done].
    intros [= <- <-]. by eapply matchProfileAt_digits.
  - destruct (matchProfileAt (String c r)) as [[a b]|] eqn:Hm; [|done].
    intros [= <- <-]. by eapply matchProfileAt_digits.
Qed.

(** X6. The key an actor is counted under.  When [extractMemberIdAndName]
    returns a member, either the text holds a profile link and the id is
    the run of decimal digits of its [XID], or it holds none and the id
    is the name that [extractMemberName] reads, the name being that same
    string.  In both cases id and name carry no white space at either
    end. *)
Theorem actor_key_shape text member :
  extractMemberIdAndName text = Some member →
  ((allDigits (member_id member) = true ∧ is_Some (matchProfile text))
   ∨ (matchProfile text = None
      ∧ member_id member = extractMemberName text
      ∧ member_name member = member_id member))
  ∧ trim (member_id member) = member_id member
  ∧ trim (member_name member) = member_name member.
Proof.
  unfold extractMemberIdAndName.
  destruct (matchProfile text) as [[g1 g2]|] eqn:Hm.
  - intros [= <-]. simpl. pose proof (matchProfile_digits _ _ _ Hm) as Hd.
    split; [left; eauto|]. split.
    + by apply noWhiteSpace_trim, allDigits_noWhiteSpace.
    + destruct (trim (default EmptyString g2)) as [|c n] eqn:Hn; simpl.
      * apply extractMemberName_trimmed.
      * rewrite <- Hn. apply trim_idem.
  - destruct (extractMemberName text) as [|c name] eqn:Hname; [done|].
    intros [= <-]. simpl. split; [by right|].
    rewrite <- Hname. split; apply extractMemberName_trimmed.
Qed.

Lemma actor_key_shape_witness :
  let member := {| member_id := "2405862"; member_name := "AJMC" |} in
  extractMemberIdAndName Examples.pointsMessage = Some member
  ∧ ((allDigits (member_id member) = true
      ∧ is_Some (matchProfile Examples.pointsMessage))
     ∨ (matchProfile Examples.pointsMessage = None
        ∧ member_id member = extractMemberName Examples.pointsMessage
        ∧ member_name member = member_id member))
  ∧ trim (member_id member) = member_id member
  ∧ trim (member_name member) = member_name member.
Proof.
  intros member.
  assert (extractMemberIdAndName Examples.pointsMessage = Some member) as Hm.
  { reflexivity. }
  split; [exact Hm|]. exact (actor_key_shape Examples.pointsMessage member Hm).
Defined.

(** *** The aggregator: what is counted, and what is marked *)

Lemma Set_add_NoDup s v : NoDup s → NoDup (Set_add s v).
Proof.
  intros Hs. unfold Set_add. destruct (Set_has s v) eqn:Hv; [done|].
  apply Set_has_not_elem in Hv. apply NoDup_app. repeat split; [done| |].
  - by intros x Hx ->%list_elem_of_singleton.
  - apply NoDup_singleton.
Qed.

Lemma fold_Set_add_NoDup l : ∀ s, NoDup s → NoDup (fold_left Set_add l s).
Proof.
  induction l as [|v l IH]; intros s Hs; [done|].
  simpl. by apply IH, Set_add_NoDup.
Qed.

Lemma Set_from_NoDup l : NoDup (Set_from l).
Proof. unfold Set_from. apply fold_Set_add_NoDup. constructor. Qed.

Lemma sumOver_addXanax id name x :
  sumOver xanax_count (addXanax id name x)
  = sumOver xanax_count x + event_uses (ItemUse id name).
Proof.
  unfold addXanax. destruct id as [|c id]; simpl; [lia|].
  rewrite sumOver_insert. simpl. destruct (x !! String c id); simpl; lia.
Qed.

Lemma sumOver_addPoints id amount name p :
  sumOver points_amount (addPoints id amount name p)
  = sumOver points_amount p + event_spend (CurrencySpend id amount name).
Proof.
  unfold addPoints. destruct id as [|c id]; simpl; [lia|].
  destruct amount as [[|n|n]|]; try lia;
    rewrite sumOver_insert; simpl; destruct (p !! String c id); simpl; lia.
Qed.

Lemma aggregate_sums evs : ∀ st,
  sumOver xanax_count (fold_left applyEvent evs st).1
  = sumOver xanax_count st.1 + totalOf event_uses evs
  ∧ sumOver points_amount (fold_left applyEvent evs st).2
    = sumOver points_amount st.2 + totalOf event_spend evs.
Proof.
  induction evs as [|ev evs IH]; intros st; simpl; [lia|].
  destruct (IH (applyEvent st ev)) as [-> ->].
  destruct st as [x p], ev as [id name|id amount name]; simpl.
  - rewrite sumOver_addXanax. simpl. destruct id; lia.
  - rewrite sumOver_addPoints. simpl. destruct id, amount; lia.
Qed.

Section AggregatorMore.
Variable StringToNumber : string → option Z.
Variable JSON_stringify : NewsItem → string.
#[local] Abbreviation consumeItem := (consumeItem StringToNumber JSON_stringify).
#[local] Abbreviation extractConsumption :=
  (extractConsumption StringToNumber JSON_stringify).
#[local] Abbreviation feedEvents := (feedEvents StringToNumber JSON_stringify).
#[local] Abbreviation itemKey := (itemKey JSON_stringify).
#[local] Abbreviation inRange := (inRange StringToNumber).

Lemma consumeItem_ids s e st item :
  (consumeItem s e st item).2
  = if inRange s e item then Set_add st.2 (itemKey item) else st.2.
Proof.
  destruct st as [[x p] ids]. rewrite consumeItem_events.
  destruct (inRange s e item); cbn [andb]; [|done].
  destruct (Set_has ids (itemKey item)) eqn:Hhas; cbn [negb]; [|done].
  simpl. unfold Set_add. by rewrite Hhas.
Qed.

Lemma fold_consumeItem_ids s e items : ∀ st,
  (fold_left (consumeItem s e) items st).2
  = fold_left Set_add (itemKey <$> filter (λ i, inRange s e i = true) items) st.2.
Proof.
  induction items as [|i items IH]; intros st; [done|].
  cbn [fold_left]. rewrite IH, consumeItem_ids, filter_cons.
  destruct (inRange s e i) eqn:Hr.
  - by rewrite decide_True.
  - by rewrite decide_False.
Qed.

Lemma extractConsumption_marked items s e ids :
  (extractConsumption items s e ids).2
  = fold_left Set_add (itemKey <$> filter (λ i, inRange s e i = true) items) ids.
Proof. by rewrite extractConsumption_ids, fold_consumeItem_ids. Qed.

(** X7. What the processed set holds after a pass.  It is the set given,
    with the key of every item in range added in feed order: an id is in
    it exactly when it was in the set before or is the key of an item in
    range, whether or not the message of the item parsed; and it lists no
    id twice when the set given lists none twice. *)
Theorem dedup_set_exact items s e ids :
  (extractConsumption items s e ids).2
  = fold_left Set_add (itemKey <$> filter (λ i, inRange s e i = true) items) ids
  ∧ (∀ v, v ∈ (extractConsumption items s e ids).2
          ↔ v ∈ ids ∨ ∃ item, item ∈ items ∧ inRange s e item = true ∧ itemKey item = v)
  ∧ (NoDup ids → NoDup (extractConsumption items s e ids).2).
Proof.
  rewrite extractConsumption_marked.
  split; [done|]. split.
  - intros v. rewrite Set_from_acc_elem. apply or_iff_compat_l.
    rewrite list_elem_of_fmap. split.
    + intros (item & -> & [Hr Hin]%list_elem_of_filter). by exists item.
    + intros (item & Hin & Hr & <-). exists item. split; [done|].
      by apply list_elem_of_filter.
  - apply fold_Set_add_NoDup.
Qed.

Lemma range_filter s e items : ∀ st,
  fold_left (consumeItem s e) (filter (λ i, inRange s e i = true) items) st
  = fold_left (consumeItem s e) items st.
Proof.
  induction items as [|i items IH]; intros st; [done|].
  rewrite filter_cons. cbn [fold_left]. destruct (inRange s e i) eqn:Hr.
  - rewrite decide_True by done. cbn [fold_left]. apply IH.
  - rewrite decide_False by done.
    rewrite (consumeItem_out_of_range StringToNumber JSON_stringify s e st i Hr).
    apply IH.
Qed.

(** X8. Items outside the chain's time range do not exist for the
    aggregator: a pass over a feed gives the result, counts and processed
    set alike, of the pass over its items in range; and a feed with no
    item in range gives two empty objects and the set it was given. *)
Theorem out_of_range_items_ignored items s e ids :
  extractConsumption (filter (λ i, inRange s e i = true) items) s e ids
  = extractConsumption items s e ids
  ∧ (Forall (λ i, inRange s e i = false) items →
     extractConsumption items s e ids = ({| xanax := ∅; points := ∅ |}, ids)).
Proof.
  split.
  - unfold extractConsumption. by rewrite range_filter.
  - intros Hall. apply extractConsumption_all_seen.
    intros item Hin Hr. rewrite Forall_forall in Hall.
    rewrite (Hall item Hin) in Hr. done.
Qed.

(** X9. The aggregator loses nothing and invents nothing, on a feed none
    of whose actor ids names a member of [Object.prototype] and whose
    amounts spent add up to at most 2^53.  Over the events of such a feed
    (the messages of its fresh items in range that parse), the Xanax
    counts of the result add up to the number of item uses by a non-empty
    id, and the points amounts add up to the amounts of the spends by a
    non-empty id.  (Under an inherited name the program finds a value that
    is no entry, and counts from it; from 2^53 on it rounds.) *)
Theorem aggregator_conserves items s e ids :
  let events := feedEvents s e ids items in
  exactEvents events →
  let batch := (extractConsumption items s e ids).1 in
  sumOver xanax_count (xanax batch) = totalOf event_uses events
  ∧ sumOver points_amount (points batch) = totalOf event_spend events.
Proof.
  intros events _ batch. subst batch events.
  rewrite extractConsumption_aggregate. simpl. unfold aggregate.
  destruct (aggregate_sums (feedEvents s e ids items) (∅, ∅)) as [-> ->].
  simpl. rewrite !sumOver_empty. lia.
Qed.

End AggregatorMore.

(** *** Merging a batch *)

(** X10. [mergeConsumption] adds exactly the batch.  An actor in neither
    batch object keeps the entry it had, or none; an actor in either has
    afterwards its former count plus its batch count of Xanax, and its
    former amount plus its batch amount of points, a missing side
    counting 0.  Hence the sums over all actors grow by exactly the sums
    of the batch. *)
Theorem merge_adds_batch consumption x p :
  (∀ id,
     (x !! id = None → p !! id = None →
      mergeConsumption consumption x p !! id = consumption !! id)
     ∧ (is_Some (x !! id) ∨ is_Some (p !! id) →
        ∃ entry, mergeConsumption consumption x p !! id = Some entry
          ∧ cons_xanax entry
            = default 0 (cons_xanax <$> consumption !! id)
              + default 0 (xanax_count <$> x !! id)
          ∧ cons_points entry
            = default 0 (cons_points <$> consumption !! id)
              + default 0 (points_amount <$> p !! id)))
  ∧ sumOver cons_xanax (mergeConsumption consumption x p)
    = sumOver cons_xanax consumption + sumOver xanax_count x
  ∧ sumOver cons_points (mergeConsumption consumption x p)
    = sumOver cons_points consumption + sumOver points_amount p.
Proof.
  split; [|split].
  - intros id. rewrite mergeConsumption_lookup. simpl. split.
    + by intros -> ->.
    + intros Hsome.
      destruct (x !! id) as [dx|], (p !! id) as [dp|];
        [| | |by destruct Hsome as [[? [=]]|[? [=]]]];
        destruct (consumption !! id) as [cur|]; simpl;
        (eexists; split; [reflexivity|]); simpl; rewrite ?num_or_0_id; lia.
  - unfold mergeConsumption.
    rewrite (sumOver_map_fold_update (λ _ d cur, mergePointsEntry d cur)
               cons_xanax (λ _, 0)).
    + rewrite (sumOver_map_fold_update (λ _ d cur, mergeXanaxEntry d cur)
                 cons_xanax xanax_count).
      * rewrite sumOver_zero. lia.
      * intros k d [cur|]; simpl; rewrite ?num_or_0_id; lia.
    + intros k d [cur|]; simpl; lia.
  - unfold mergeConsumption.
    rewrite (sumOver_map_fold_update (λ _ d cur, mergePointsEntry d cur)
               cons_points points_amount).
    + rewrite (sumOver_map_fold_update (λ _ d cur, mergeXanaxEntry d cur)
                 cons_points (λ _, 0)).
      * rewrite sumOver_zero. lia.
      * intros k d [cur|]; simpl; lia.
    + intros k d [cur|]; simpl; rewrite ?num_or_0_id; lia.
Qed.

(** *** The walk of the paginator *)

Section PaginatorMore.
Variable StringToNumber : string → option Z.
#[local] Abbreviation reachesChainStart := (reachesChainStart StringToNumber).
#[local] Abbreviation scanPage := (scanPage StringToNumber).
#[local] Abbreviation pageContinues := (pageContinues StringToNumber).
#[local] Abbreviation fetchPages := (fetchPages StringToNumber).

(** X11. What a finished walk returns and asks for.  No item it has
    collected is older than the chain's start, whatever the order of the
    items within the pages; the cursors it has requested are the one it
    started from followed by the [prev] cursors of the pages it went
    through, each of them a truthy value, so it never asks for a page
    with an empty cursor after the first. *)
Theorem fetchPages_collects w chainStart fuel : ∀ before allNews requested news asked,
  fetchPages w fuel chainStart before allNews requested = Done (news, asked) →
  ∃ collected cursors,
    news = allNews ++ collected
    ∧ Forall (λ i, reachesChainStart chainStart i = false) collected
    ∧ asked = requested ++ before :: cursors
    ∧ (length cursors < fuel)%nat
    ∧ Forall (λ c, truthy c = true) cursors.
Proof.
  induction fuel as [|fuel IH]; intros before allNews requested news asked; [done|].
  simpl. destruct (fetchFactionNews w before) as [data|e]; [|done].
  destruct (scanPage_spec StringToNumber chainStart (page_news data))
    as (rest & _ & Hkept & _).
  destruct (scanPage chainStart (page_news data)) as [kept reached]. simpl in Hkept.
  destruct (negb (truthy (page_prev data)) || reached) eqn:Hbreak.
  - intros [= <- <-]. exists kept, []. repeat split; try done. simpl. lia.
  - intros Hrec. apply IH in Hrec as (collected & cursors & -> & Hc & -> & Hlen & Ht).
    exists (kept ++ collected), (page_prev data :: cursors).
    rewrite <- !app_assoc. repeat split; try done.
    + by apply Forall_app.
    + simpl. lia.
    + constructor; [|done].
      apply orb_false_iff in Hbreak as [Hprev _]. by apply negb_false_iff in Hprev.
Qed.

(** X12. The walk has no page limit and keeps nothing of a walk that
    fails.  After any number of pages that each carry a cursor and do not
    reach the chain's start, it requests the page of the last cursor: if
    that request is rejected the whole walk is rejected with that error,
    the items collected so far being dropped; and no number of rounds
    that is at most the number of such pages finishes it. *)
Theorem fetchPages_aborts w chainStart pages : ∀ fuel before allNews requested,
  served w before pages →
  Forall (λ p, pageContinues chainStart p = true) pages →
  (∀ e, fetchFactionNews w (cursorAfter before pages) = Err e →
        (length pages < fuel)%nat →
        fetchPages w fuel chainStart before allNews requested = Failed e)
  ∧ ((fuel ≤ length pages)%nat →
     fetchPages w fuel chainStart before allNews requested = Pending).
Proof.
  induction pages as [|p pages IH]; intros fuel before allNews requested Hs Hc.
  - split.
    + intros e He Hfuel. destruct fuel as [|fuel]; [simpl in Hfuel; lia|].
      simpl in *. by rewrite He.
    + intros Hfuel. destruct fuel; [done|simpl in Hfuel; lia].
  - destruct Hs as [Hp Hs]. apply Forall_cons in Hc as [Hpc Hc].
    unfold pageContinues in Hpc.
    apply andb_true_iff in Hpc as [Hprev Hreach]. apply negb_true_iff in Hreach.
    destruct fuel as [|fuel].
    { split; [intros e _ Hfuel; simpl in Hfuel; lia|done]. }
    cbn [fetchPages]. rewrite Hp.
    destruct (scanPage chainStart (page_news p)) as [kept reached]. simpl in Hreach.
    subst reached. rewrite Hprev. simpl.
    destruct (IH fuel (page_prev p) (allNews ++ kept) (requested ++ [before]) Hs Hc)
      as [Hfail Hpend].
    split.
    + intros e He Hfuel. apply Hfail; [done|simpl in Hfuel; lia].
    + intros Hfuel. apply Hpend. simpl in Hfuel. lia.
Qed.

End PaginatorMore.

Lemma fetchPages_collects_witness :
  ∃ news asked,
    fetchPages Examples.stringToNumber Examples.threePages 5 (Num 85) Null [] []
    = Done (news, asked)
    ∧ ∃ collected cursors,
        news = [] ++ collected
        ∧ Forall (λ i, reachesChainStart Examples.stringToNumber (Num 85) i = false)
            collected
        ∧ asked = [] ++ Null :: cursors
        ∧ (length cursors < 5)%nat
        ∧ Forall (λ c, truthy c = true) cursors.
Proof.
  destruct (fetchPages Examples.stringToNumber Examples.threePages 5 (Num 85) Null [] [])
    as [[news asked]| |] eqn:Hwalk; [|exfalso; vm_compute in Hwalk; discriminate..].
  exists news, asked. split; [reflexivity|].
  exact (fetchPages_collects Examples.stringToNumber Examples.threePages (Num 85) 5%nat
           Null [] [] news asked Hwalk).
Defined.

Lemma fetchPages_aborts_witness :
  served Examples.feedBreaks Null [Examples.P1]
  ∧ Forall (λ p, pageContinues Examples.stringToNumber (Num 85) p = true) [Examples.P1]
  ∧ fetchPages Examples.stringToNumber Examples.feedBreaks 5 (Num 85) Null [] []
    = Failed "HTTP 500".
Proof.
  assert (served Examples.feedBreaks Null [Examples.P1]) as Hs.
  { repeat split. }
  assert (Forall (λ p, pageContinues Examples.stringToNumber (Num 85) p = true)
            [Examples.P1]) as Hc.
  { repeat constructor. }
  split; [exact Hs|]. split; [exact Hc|].
  apply (proj1 (fetchPages_aborts Examples.stringToNumber Examples.feedBreaks (Num 85)
                  [Examples.P1] 5%nat Null [] [] Hs Hc)).
  - reflexivity.
  - simpl. lia.
Defined.

(** *** What a sync keeps and what it touches *)

Section EngineMore.
Variable StringToNumber : string → option Z.
Variable JSON_stringify : NewsItem → string.
#[local] Abbreviation extractConsumption :=
  (extractConsumption StringToNumber JSON_stringify).
#[local] Abbreviation loadAndSyncChain := (loadAndSyncChain StringToNumber JSON_stringify).
#[local] Abbreviation syncAll := (syncAll StringToNumber JSON_stringify).

(** What one sync does to the record stored under a key. *)
Lemma loadAndSyncChain_at w cc db k rec :
  store_keyed db → chains db !! k = Some rec →
  store_keyed (loadAndSyncChain w cc db).2
  ∧ (chains (loadAndSyncChain w cc db).2 !! k = Some rec
     ∨ ∃ reportData allNews,
         let news := extractConsumption allNews (resolveStart cc)
                       (resolveEnd (now_resolved w) cc)
                       (Set_from (processedNewsIds rec)) in
         chains (loadAndSyncChain w cc db).2 !! k
         = Some (syncedChain (now_resolved w) cc rec reportData news.1 news.2)).
Proof.
  intros Hkeyed Hrec.
  destruct (loadAndSyncChain w cc db) as [o db'] eqn:Hrun.
  destruct o as [r| |]; simpl.
  - destruct (loadAndSyncChain_done _ _ _ _ _ _ _ Hrun)
      as (stored & rd & allNews & requested & Hget & _ & _ & Hr & Hdb).
    simpl in Hr, Hdb. split.
    { rewrite Hdb. by apply store_keyed_saveChain, store_keyed_setConfig. }
    assert (chainId r = resolveChainId cc) as Hid.
    { rewrite Hr. simpl. by eapply working_chain_id. }
    rewrite Hdb. simpl. rewrite Hid.
    destruct (decide (resolveChainId cc = k)) as [Hk|Hne].
    + right. exists rd, allNews. simpl. rewrite Hk, lookup_insert_eq.
      apply getChain_Ok in Hget as [_ ->]. rewrite Hk, Hrec in Hr. simpl in Hr.
      by rewrite Hr.
    + left. by rewrite lookup_insert_ne.
  - pose proof (loadAndSyncChain_not_done StringToNumber JSON_stringify w cc db) as Hsame.
    rewrite Hrun in Hsame. simpl in Hsame. rewrite Hsame by done. by split; [|left].
  - pose proof (loadAndSyncChain_not_done StringToNumber JSON_stringify w cc db) as Hsame.
    rewrite Hrun in Hsame. simpl in Hsame. rewrite Hsame by done. by split; [|left].
Qed.

(** X13. A stored record keeps its identity.  Over any sequence of syncs,
    completed or not, for this chain or another, a record stored under
    its [chainId] stays stored under that key, with the same [chainId]
    and the same [start] (the start of a later payload is never
    written), and every id in its [processedNewsIds] stays in it. *)
Theorem record_identity_kept runs : ∀ db k rec,
  store_keyed db → chains db !! k = Some rec →
  store_keyed (syncAll runs db)
  ∧ ∃ rec', chains (syncAll runs db) !! k = Some rec'
            ∧ chainId rec' = k
            ∧ chain_start rec' = chain_start rec
            ∧ (∀ v, v ∈ processedNewsIds rec → v ∈ processedNewsIds rec').
Proof.
  induction runs as [|[w cc] runs IH]; intros db k rec Hkeyed Hrec.
  - split; [done|]. exists rec. repeat split; try done. by apply Hkeyed.
  - unfold syncAll. cbn [fold_left]. simpl.
    destruct (loadAndSyncChain_at w cc db k rec Hkeyed Hrec) as [Hkeyed' Hcases].
    destruct Hcases as [Hsame|(rd & allNews & Hnew)].
    + apply (IH _ k rec Hkeyed' Hsame).
    + simpl in Hnew.
      destruct (IH _ k _ Hkeyed' Hnew) as (Hk'' & rec' & Hrec' & Hid & Hstart & Hids).
      split; [done|]. exists rec'. repeat split; try done.
      intros v Hv. apply Hids. simpl.
      rewrite extractConsumption_ids. apply fold_consumeItem_ids_mono. simpl.
      by apply Set_from_elem.
Qed.

(** X14. What a completed sync writes.  In the config it sets
    [lastSyncTimestamp] and nothing else, the API key included; in the
    chains it writes the record it returns under that record's [chainId]
    and leaves every other record as it was; and the [processedNewsIds]
    it writes list no id twice. *)
Theorem sync_frame w cc db r db' :
  loadAndSyncChain w cc db = (Done r, db') →
  config db' = <["lastSyncTimestamp" := Num (now_synced w)]> (config db)
  ∧ getConfig db' "apiKey" = getConfig db "apiKey"
  ∧ chains db' !! chainId r = Some r
  ∧ (∀ k, k ≠ chainId r → chains db' !! k = chains db !! k)
  ∧ NoDup (processedNewsIds r).
Proof.
  intros Hrun.
  destruct (loadAndSyncChain_done _ _ _ _ _ _ _ Hrun)
    as (stored & rd & allNews & requested & _ & _ & _ & Hr & Hdb).
  simpl in Hr, Hdb. rewrite Hdb. simpl. repeat split.
  - unfold getConfig. simpl. by rewrite lookup_insert_ne.
  - apply lookup_insert_eq.
  - intros k Hk. by rewrite lookup_insert_ne.
  - rewrite Hr. simpl.
    rewrite (extractConsumption_marked StringToNumber JSON_stringify).
    apply fold_Set_add_NoDup, Set_from_NoDup.
Qed.

End EngineMore.

Lemma record_identity_kept_witness :
  let runs := [(Examples.threePages, Examples.chain7);
               (Examples.reportDown, Examples.chain7);
               (Examples.threePages, Examples.ended7)] in
  let db' := syncAll Examples.stringToNumber Examples.stringify runs Examples.storedDB in
  store_keyed Examples.storedDB
  ∧ chains Examples.storedDB !! Num 7 = Some Examples.stored7
  ∧ store_keyed db'
  ∧ ∃ rec', chains db' !! Num 7 = Some rec'
            ∧ chainId rec' = Num 7
            ∧ chain_start rec' = chain_start Examples.stored7
            ∧ (∀ v, v ∈ processedNewsIds Examples.stored7 → v ∈ processedNewsIds rec').
Proof.
  intros runs db'.
  assert (chains Examples.storedDB !! Num 7 = Some Examples.stored7) as Hrec.
  { reflexivity. }
  split; [exact store_keyed_storedDB|]. split; [exact Hrec|].
  exact (record_identity_kept Examples.stringToNumber Examples.stringify runs
           Examples.storedDB (Num 7) Examples.stored7 store_keyed_storedDB Hrec).
Defined.

Lemma sync_frame_witness :
  ∃ r db',
    loadAndSyncChain Examples.stringToNumber Examples.stringify
      Examples.threePages Examples.chain7 (app_db Examples.refreshing) = (Done r, db')
    ∧ config db'
      = <["lastSyncTimestamp" := Num (now_synced Examples.threePages)]>
          (config (app_db Examples.refreshing))
    ∧ getConfig db' "apiKey" = getConfig (app_db Examples.refreshing) "apiKey"
    ∧ chains db' !! chainId r = Some r
    ∧ (∀ k, k ≠ chainId r → chains db' !! k = chains (app_db Examples.refreshing) !! k)
    ∧ NoDup (processedNewsIds r).
Proof.
  sync_completes r db' Hrun.
  exists r, db'. split; [reflexivity|].
  exact (sync_frame Examples.stringToNumber Examples.stringify _ _ _ r db' Hrun).
Defined.

(** *** The callers of the sync *)

Section CallersFacts.
Variable StringToNumber : string → option Z.
Variable JSON_stringify : NewsItem → string.
#[local] Abbreviation loadAndSyncChain := (loadAndSyncChain StringToNumber JSON_stringify).
#[local] Abbreviation init := (init StringToNumber JSON_stringify).
#[local] Abbreviation refreshTick := (refreshTick StringToNumber JSON_stringify).
#[local] Abbreviation onFetchChainFromApi :=
  (onFetchChainFromApi StringToNumber JSON_stringify).

(** X15. A failure of [init] after the key was read.  With the
    [js/api.js] of the repository, which has no [fetchFactionMembers],
    [init] fails on that call whatever the endpoints would answer: the
    page shows the API key form and the runtime's message, and the store,
    the stored key included, and the timer stay as they were.  With an
    api module that has the function, whether the status fetch, the
    chains-list fetch or the sync rejects, the page shows the API key
    form and the error's message, or [Failed to load] when the message is
    empty; no chain record changes; the stored API key is replaced by
    null exactly when the error carries [removeKey], and no other config
    key changes; no auto-refresh is started. *)
Theorem init_failure aw st :
  truthy (getConfig (app_db st) "apiKey") = true →
  let st' := init aw st in
  (∀ typeError,
     fetchFactionMembers aw = NotExported typeError →
     screen st' = ApiKeyForm
     ∧ shownError st' = Some (str_or typeError "Failed to load")
     ∧ app_db st' = app_db st
     ∧ refreshTimer st' = refreshTimer st)
  ∧ (∀ e,
       fetchFactionMembers aw = Exported →
       ((fetchCurrentChain aw = Err e)
        ∨ (∃ cc, fetchCurrentChain aw = Ok cc ∧ noChain cc = true
                 ∧ fetchFactionChains aw = Err e)
        ∨ (∃ c, fetchCurrentChain aw = Ok (Some c) ∧ noChain (Some c) = false
                ∧ (loadAndSyncChain (sync_world aw) c (app_db st)).1 = Failed e)) →
       screen st' = ApiKeyForm
       ∧ shownError st' = Some (str_or e "Failed to load")
       ∧ chains (app_db st') = chains (app_db st)
       ∧ getConfig (app_db st') "apiKey"
         = (if removeKey aw e then Null else getConfig (app_db st) "apiKey")
       ∧ (∀ key, key ≠ "apiKey" →
            getConfig (app_db st') key = getConfig (app_db st) key)
       ∧ refreshTimer st' = refreshTimer st).
Proof.
  intros Hkey st'. subst st'. split.
  { intros typeError Hmissing. unfold init. rewrite Hkey, Hmissing. done. }
  intros e Hexported Hfail.
  assert (∀ db : DB,
    let out := failWith aw "Failed to load" e db in
    chains out.1 = chains db
    ∧ getConfig out.1 "apiKey" = (if removeKey aw e then Null else getConfig db "apiKey")
    ∧ (∀ key, key ≠ "apiKey" → getConfig out.1 key = getConfig db key)
    ∧ out.2 = Some (str_or e "Failed to load")) as Hout.
  { intros db. unfold failWith. simpl. destruct (removeKey aw e); simpl; [|done].
    split; [done|]. split.
    - unfold getConfig. simpl. by rewrite lookup_insert_eq.
    - split; [|done]. intros key Hne. unfold getConfig. simpl.
      by rewrite lookup_insert_ne. }
  specialize (Hout (app_db st)).
  assert (init aw st
          = {| app_db := (failWith aw "Failed to load" e (app_db st)).1;
               refreshTimer := refreshTimer st; isRefreshing := isRefreshing st;
               screen := ApiKeyForm;
               shownError := (failWith aw "Failed to load" e (app_db st)).2 |}) as ->.
  { unfold init. rewrite Hkey, Hexported. cbn [negb]. cbv zeta.
    destruct Hfail as [He|[(cc & Hcc & Hno & He)|(c & Hc & Hno & Hsync)]].
    - rewrite He. by destruct (failWith _ _ _ _).
    - rewrite Hcc. destruct cc as [c|]; rewrite ?Hno, He; by destruct (failWith _ _ _ _).
    - rewrite Hc, Hno.
      destruct (loadAndSyncChain (sync_world aw) c (app_db st)) as [[r|e'|] db'];
        simpl in Hsync; try done. injection Hsync as ->. by destruct (failWith _ _ _ _). }
  simpl in *. by destruct Hout as (Hchains & Hk & Hothers & Herr).
Qed.

(** X16. When an auto-refresh finds that no chain is running, it stores
    the record it captured when the timer was started, marked finished
    and with the current time as end if it had none, in place of whatever
    the store holds under that chain's id: hits and consumption that
    later refreshes have synced into the store are overwritten by those
    of the captured record.  No other record and no config key changes,
    the timer is cleared, and the dashboard shows the record stored. *)
Theorem refresh_end_stores_captured aw st chain currentChain :
  refreshTimer st = Some chain →
  isRefreshing st = false →
  fetchCurrentChain aw = Ok currentChain →
  noChain currentChain = true →
  let st' := refreshTick aw true st in
  let stored := endedRecord (now_ended aw) chain in
  chains (app_db st') !! chainId chain = Some stored
  ∧ (∀ k, k ≠ chainId chain → chains (app_db st') !! k = chains (app_db st) !! k)
  ∧ config (app_db st') = config (app_db st)
  ∧ refreshTimer st' = None
  ∧ isRefreshing st' = false
  ∧ screen st' = Dashboard stored.
Proof.
  intros Htimer Hidle Hfetch Hnone. unfold refreshTick.
  rewrite Htimer, Hidle, Hfetch. simpl.
  destruct currentChain as [c|]; rewrite ?Hnone; simpl; unfold endedRecord;
    repeat split; try apply lookup_insert_eq;
    intros k Hk; by rewrite lookup_insert_ne.
Qed.

(** X17. A refresh that cannot run, or that fails, leaves no trace.  The
    interval callback does nothing while the page is hidden, while an
    earlier firing is still running, or when no timer is set; and when
    its status fetch or its sync rejects, the store, the timer, the page
    and the error shown stay as they were, and the next firing is free to
    run. *)
Theorem refresh_fails_silently aw visible st :
  let st' := refreshTick aw visible st in
  ((visible = false ∨ isRefreshing st = true ∨ refreshTimer st = None) → st' = st)
  ∧ (visible = true → isRefreshing st = false → is_Some (refreshTimer st) →
     ((∃ e, fetchCurrentChain aw = Err e)
      ∨ (∃ c e, fetchCurrentChain aw = Ok (Some c) ∧ noChain (Some c) = false
                ∧ (loadAndSyncChain (sync_world aw) c (app_db st)).1 = Failed e)) →
     app_db st' = app_db st
     ∧ refreshTimer st' = refreshTimer st
     ∧ screen st' = screen st
     ∧ shownError st' = shownError st
     ∧ isRefreshing st' = false).
Proof.
  unfold refreshTick. split.
  - intros [->|[Hbusy|Hnone]].
    + by destruct (refreshTimer st).
    + destruct (refreshTimer st); [|done]. rewrite Hbusy. by destruct visible.
    + by rewrite Hnone.
  - intros -> Hidle [chain Htimer] Hfail. rewrite Htimer, Hidle. simpl.
    destruct Hfail as [[e He]|(c & e & Hc & Hno & Hsync)].
    + by rewrite He.
    + rewrite Hc, Hno.
      destruct (loadAndSyncChain (sync_world aw) c (app_db st)) as [[r|e'|] db'];
        simpl in Hsync; try done.
Qed.

(** X18. A chain picked from the chains list is synced as one that is
    not in progress: when the sync completes, the end of the record is
    the end marker of the report if it has one, else the end of the list
    entry, else the current time, so an entry without an end gets the
    time of the sync as its end; the record is finished exactly when that
    end is truthy; and it is the record shown on the dashboard and stored
    under its [chainId]. *)
Theorem history_chain_status aw chainFromApi st r db' :
  loadAndSyncChain (sync_world aw) (chainDataOf chainFromApi) (app_db st) = (Done r, db') →
  let st' := onFetchChainFromApi aw chainFromApi st in
  ∃ reportData,
    fetchChainReport (sync_world aw)
      (coalesce (ac_id chainFromApi) (ac_chain chainFromApi)) = Ok reportData
    ∧ chain_end r
      = coalesce (rep_end (reportOf reportData))
          (coalesce (ac_end chainFromApi) (Num (now_resolved (sync_world aw))))
    ∧ (status r = finished ↔ truthy (chain_end r) = true)
    ∧ screen st' = Dashboard r
    ∧ app_db st' = db'
    ∧ chains db' !! chainId r = Some r.
Proof.
  intros Hrun. unfold onFetchChainFromApi. rewrite Hrun. simpl.
  destruct (loadAndSyncChain_done _ _ _ _ _ _ _ Hrun)
    as (stored & rd & allNews & requested & Hget & Hrep & _ & Hr & Hdb).
  simpl in Hr, Hdb. exists rd.
  assert (resolveChainId (chainDataOf chainFromApi)
          = coalesce (ac_id chainFromApi) (ac_chain chainFromApi)) as Hid.
  { apply getChain_Ok in Hget as [Hvalid _]. revert Hvalid.
    unfold resolveChainId, chainDataOf, coalesce. simpl.
    by destruct (ac_id chainFromApi), (ac_chain chainFromApi). }
  rewrite <- Hid. split; [done|].
  assert (chain_end r
          = coalesce (rep_end (reportOf rd))
              (coalesce (ac_end chainFromApi) (Num (now_resolved (sync_world aw))))) as Hend.
  { rewrite Hr. unfold syncedChain, syncedEnd, resolveEnd, isActive, chainDataOf. simpl.
    f_equal. unfold coalesce. by destruct (nullish (ac_end chainFromApi)). }
  split; [done|]. split.
  - rewrite Hr. unfold syncedChain. simpl.
    destruct (truthy (syncedEnd _ _ _)); split; done.
  - repeat split; try done. rewrite Hdb. simpl. apply lookup_insert_eq.
Qed.

End CallersFacts.

Lemma init_failure_witness :
  let missing := init Examples.stringToNumber Examples.stringify
                   Examples.membersMissing Examples.refreshing in
  let rejected := init Examples.stringToNumber Examples.stringify
                    Examples.keyRejected Examples.refreshing in
  truthy (getConfig (app_db Examples.refreshing) "apiKey") = true
  ∧ (screen missing = ApiKeyForm
     ∧ shownError missing
       = Some (str_or "api.fetchFactionMembers is not a function" "Failed to load")
     ∧ app_db missing = app_db Examples.refreshing
     ∧ refreshTimer missing = refreshTimer Examples.refreshing)
  ∧ (fetchCurrentChain Examples.keyRejected = Err "Incorrect key"
     ∧ screen rejected = ApiKeyForm
     ∧ shownError rejected = Some (str_or "Incorrect key" "Failed to load")
     ∧ chains (app_db rejected) = chains (app_db Examples.refreshing)
     ∧ getConfig (app_db rejected) "apiKey"
       = (if removeKey Examples.keyRejected "Incorrect key" then Null
          else getConfig (app_db Examples.refreshing) "apiKey")
     ∧ (∀ key, key ≠ "apiKey" →
          getConfig (app_db rejected) key = getConfig (app_db Examples.refreshing) key)
     ∧ refreshTimer rejected = refreshTimer Examples.refreshing).
Proof.
  intros missing rejected.
  assert (truthy (getConfig (app_db Examples.refreshing) "apiKey") = true) as Hkey.
  { reflexivity. }
  assert (fetchCurrentChain Examples.keyRejected = Err "Incorrect key") as Herr.
  { reflexivity. }
  split; [exact Hkey|]. split.
  - exact (proj1 (init_failure Examples.stringToNumber Examples.stringify
                    Examples.membersMissing Examples.refreshing Hkey)
             "api.fetchFactionMembers is not a function" eq_refl).
  - split; [exact Herr|].
    exact (proj2 (init_failure Examples.stringToNumber Examples.stringify
                    Examples.keyRejected Examples.refreshing Hkey)
             "Incorrect key" eq_refl (or_introl Herr)).
Defined.

Lemma refresh_end_stores_captured_witness :
  let st' := refreshTick Examples.stringToNumber Examples.stringify
               Examples.chainOver true Examples.refreshing in
  let stored := endedRecord (now_ended Examples.chainOver) Examples.stored7 in
  chains (app_db Examples.refreshing) !! Num 7 = Some Examples.newer7
  ∧ refreshTimer Examples.refreshing = Some Examples.stored7
  ∧ chains (app_db st') !! chainId Examples.stored7 = Some stored
  ∧ (∀ k, k ≠ chainId Examples.stored7 →
       chains (app_db st') !! k = chains (app_db Examples.refreshing) !! k)
  ∧ config (app_db st') = config (app_db Examples.refreshing)
  ∧ refreshTimer st' = None
  ∧ isRefreshing st' = false
  ∧ screen st' = Dashboard stored.
Proof.
  intros st' stored.
  split; [reflexivity|]. split; [reflexivity|].
  exact (refresh_end_stores_captured Examples.stringToNumber Examples.stringify
           Examples.chainOver Examples.refreshing Examples.stored7 None
           eq_refl eq_refl eq_refl eq_refl).
Defined.

Lemma history_chain_status_witness :
  ∃ r db',
    loadAndSyncChain Examples.stringToNumber Examples.stringify
      (sync_world Examples.chainOver) (chainDataOf Examples.history7)
      (app_db Examples.refreshing) = (Done r, db')
    ∧ ∃ reportData,
        fetchChainReport (sync_world Examples.chainOver)
          (coalesce (ac_id Examples.history7) (ac_chain Examples.history7))
        = Ok reportData
        ∧ chain_end r
          = coalesce (rep_end (reportOf reportData))
              (coalesce (ac_end Examples.history7)
                 (Num (now_resolved (sync_world Examples.chainOver))))
        ∧ (status r = finished ↔ truthy (chain_end r) = true)
        ∧ screen (onFetchChainFromApi Examples.stringToNumber Examples.stringify
                    Examples.chainOver Examples.history7 Examples.refreshing)
          = Dashboard r
        ∧ app_db (onFetchChainFromApi Examples.stringToNumber Examples.stringify
                    Examples.chainOver Examples.history7 Examples.refreshing)
          = db'
        ∧ chains db' !! chainId r = Some r.
Proof.
  sync_completes r db' Hrun.
  exists r, db'. split; [reflexivity|].
  exact (history_chain_status Examples.stringToNumber Examples.stringify
           Examples.chainOver Examples.history7 Examples.refreshing r db' Hrun).
Defined.

(** *** The member table *)

Lemma hitsRows_lookup (h : gmap string HitEntry) id :
  map_fold (λ id data (members : gmap string MemberRow),
              <[id := hitsRow id data]> members) ∅ h !! id
  = hitsRow id <$> h !! id.
Proof.
  rewrite (map_fold_keyed_lookup (λ k d _, hitsRow k d) ∅ h id).
  by destruct (h !! id).
Qed.

Lemma hitsRows_sum (g : MemberRow → Z) (gh : HitEntry → Z) (h : gmap string HitEntry) :
  (∀ k d, g (hitsRow k d) = gh d) →
  sumOver g (map_fold (λ id data (members : gmap string MemberRow),
                         <[id := hitsRow id data]> members) ∅ h)
  = sumOver gh h.
Proof.
  intros Hg.
  apply (map_fold_weak_ind (λ r m,
    sumOver g r = sumOver gh m ∧ ∀ i, m !! i = None → r !! i = None) _ ∅).
  - by rewrite !sumOver_empty.
  - intros i x m r Hi [IH Hnone]. split.
    + rewrite !sumOver_insert_fresh by auto. by rewrite IH, Hg.
    + intros j Hj. apply lookup_insert_None in Hj as [Hj Hne].
      rewrite lookup_insert_ne by done. by apply Hnone.
Qed.

(** X19. The table agrees with the record.  [buildMemberRows] makes one
    row for every id that has hits or consumption and for no other; a
    row carries its id, the hits and respect of the id's hits entry and
    the Xanax and points of its consumption entry, 0 where the id has no
    such entry; and each column of the table adds up to the total that
    [updateTotals] stores for it. *)
Theorem member_rows hits consumption :
  let rows := buildMemberRows hits consumption in
  (∀ id, is_Some (rows !! id) ↔ is_Some (hits !! id) ∨ is_Some (consumption !! id))
  ∧ (∀ id row, rows !! id = Some row →
       row_id row = id
       ∧ row_hits row = default 0 (hit_hits <$> hits !! id)
       ∧ row_respect row = default 0 (hit_respect <$> hits !! id)
       ∧ row_xanax row = default 0 (cons_xanax <$> consumption !! id)
       ∧ row_points row = default 0 (cons_points <$> consumption !! id))
  ∧ (let t := updateTotals hits consumption in
     sumOver row_hits rows = total_hits t
     ∧ sumOver row_respect rows = total_respect t
     ∧ sumOver row_xanax rows = total_xanax t
     ∧ sumOver row_points rows = total_points t).
Proof.
  intros rows.
  assert (∀ id, rows !! id
                = match consumption !! id with
                  | Some d => Some (consumptionRow id d (hitsRow id <$> hits !! id))
                  | None => hitsRow id <$> hits !! id
                  end) as Hlookup.
  { intros id. subst rows. unfold buildMemberRows.
    rewrite (map_fold_keyed_lookup consumptionRow). by rewrite hitsRows_lookup. }
  split; [|split].
  - intros id. rewrite Hlookup.
    destruct (consumption !! id), (hits !! id); simpl; split; intros H;
      try (by eauto); try (by destruct H as [? [=]]);
      by destruct H as [[? [=]]|[? [=]]].
  - intros id row. rewrite Hlookup.
    destruct (consumption !! id) as [d|], (hits !! id) as [hd|]; simpl;
      intros [= <-]; simpl; rewrite ?num_or_0_id; repeat split; lia.
  - rewrite updateTotals_sums. simpl. subst rows. unfold buildMemberRows.
    repeat split.
    + rewrite (sumOver_map_fold_update consumptionRow row_hits (λ _, 0)).
      * rewrite sumOver_zero, (hitsRows_sum row_hits hit_hits) by done. lia.
      * intros k d [cur|]; simpl; lia.
    + rewrite (sumOver_map_fold_update consumptionRow row_respect (λ _, 0)).
      * rewrite sumOver_zero, (hitsRows_sum row_respect hit_respect) by done. lia.
      * intros k d [cur|]; simpl; lia.
    + rewrite (sumOver_map_fold_update consumptionRow row_xanax cons_xanax).
      * rewrite (hitsRows_sum row_xanax (λ _, 0)), sumOver_zero by done. lia.
      * intros k d [cur|]; simpl; rewrite ?num_or_0_id; lia.
    + rewrite (sumOver_map_fold_update consumptionRow row_points cons_points).
      * rewrite (hitsRows_sum row_points (λ _, 0)), sumOver_zero by done. lia.
      * intros k d [cur|]; simpl; rewrite ?num_or_0_id; lia.
Qed.

Lemma insertSorted_Permutation {A} (cmp : A → A → Qc) x l :
  insertSorted cmp x l ≡ₚ x :: l.
Proof.
  induction l as [|y l IH]; [done|]. simpl.
  case_bool_decide; [done|]. rewrite IH. apply Permutation_swap.
Qed.

Lemma Array_sort_Permutation {A} (cmp : A → A → Qc) l : Array_sort cmp l ≡ₚ l.
Proof.
  induction l as [|x l IH]; [done|]. unfold Array_sort in *. simpl.
  by rewrite insertSorted_Permutation, IH.
Qed.

Lemma Array_sort_sorted {A} (cmp : A → A → Qc) l :
  (∀ a b c, (cmp a b ≤ 0)%Qc → (cmp b c ≤ 0)%Qc → (cmp a c ≤ 0)%Qc) →
  (∀ a b, ¬ (cmp a b ≤ 0)%Qc → (cmp b a ≤ 0)%Qc) →
  StronglySorted (λ a b, (cmp a b ≤ 0)%Qc) (Array_sort cmp l).
Proof.
  intros Htrans Htotal. unfold Array_sort.
  induction l as [|x l IH]; [constructor|]. simpl.
  revert IH. generalize (foldr (insertSorted cmp) [] l). clear l.
  intros l Hl. induction Hl as [|y l Hl IH Hy]; simpl.
  - repeat constructor.
  - case_bool_decide as Hxy.
    + constructor; [by constructor|]. constructor; [done|].
      eapply Forall_impl; [exact Hy|]. simpl. eauto.
    + constructor; [done|]. rewrite insertSorted_Permutation.
      constructor; [auto|done].
Qed.

Lemma StronglySorted_mono {A} (R1 R2 : relation A) l :
  (∀ x y, R1 x y → R2 x y) → StronglySorted R1 l → StronglySorted R2 l.
Proof.
  intros Himpl. induction 1 as [|x l Hl IH Hx]; constructor; [done|].
  eapply Forall_impl; [exact Hx|]. simpl. auto.
Qed.

Lemma Qc_sub_nonpos (x y : Qc) : (x - y ≤ 0)%Qc ↔ (x ≤ y)%Qc.
Proof.
  rewrite (Qcplus_le_mono_r (x - y) 0 y).
  replace (x - y + y)%Qc with x by ring. by rewrite Qcplus_0_l.
Qed.

(** In a list in descending order, the values among the first [n] are
    those that fewer than [n] entries exceed. *)
Lemma descending_take (h : Z) l : ∀ n,
  StronglySorted (λ a b, b ≤ a) l → h ∈ l →
  h ∈ take n l ↔ (length (filter (λ x : Z, (h < x)%Z) l) < n)%nat.
Proof.
  induction l as [|a l IH]; intros n Hs Hin; [by apply elem_of_nil in Hin|].
  apply StronglySorted_inv in Hs as [Hs Ha].
  destruct n as [|n].
  { simpl. split; [by intros ?%elem_of_nil|lia]. }
  simpl. rewrite filter_cons. destruct (decide (h < a)) as [Hlt|Hge].
  - apply elem_of_cons in Hin as [->|Hin]; [lia|].
    rewrite elem_of_cons, (IH n Hs Hin). simpl. split; [intros [?|?]; lia|lia].
  - assert (h = a) as ->.
    { apply elem_of_cons in Hin as [?|Hin]; [done|].
      rewrite Forall_forall in Ha. specialize (Ha _ Hin). simpl in Ha. lia. }
    assert (filter (λ x, a < x) l = []) as ->.
    { clear -Ha. induction l as [|b l IH]; [done|].
      apply Forall_cons in Ha as [Hb Hl]. rewrite filter_cons.
      rewrite decide_False by lia. by apply IH. }
    simpl. split; [lia|]. intros _. apply elem_of_cons. by left.
Qed.

Lemma filter_hits_length (h : Z) (rows : list MemberRow) :
  length (filter (λ x, h < x) (row_hits <$> rows))
  = length (filter (λ r, h < row_hits r) rows).
Proof.
  induction rows as [|r rows IH]; [done|]. rewrite fmap_cons, !filter_cons.
  destruct (decide (h < row_hits r)); simpl; by rewrite IH.
Qed.

Section TableFacts.
Variable localeCompare : string → string → Z.
Variable divide : Z → Z → Qc.
#[local] Abbreviation column := (column divide).
#[local] Abbreviation compareRows := (compareRows localeCompare divide).
#[local] Abbreviation renderTable := (renderTable localeCompare divide).

Lemma compareRows_number key sortDir a b :
  (compareRows (ByNumber key) sortDir a b ≤ 0)%Qc
  ↔ match sortDir with
    | asc => (column key a ≤ column key b)%Qc
    | desc => (column key b ≤ column key a)%Qc
    end.
Proof. unfold compareRows. destruct sortDir; apply Qc_sub_nonpos. Qed.

(** X20. What the table shows and which rows it highlights.  Under every
    sort key, the name included, and either direction the table shows
    each member row once and never highlights a row with no hits.  Under
    each of the five numeric keys, respect per hit included, the rows are
    in the order of the key.  Sorted by hits, highest first, as the
    dashboard first shows it, a row is highlighted exactly when it has at
    least one hit and fewer than three rows have more hits than it has:
    rows that tie with the third take the highlight too. *)
Theorem top_hits_highlight rows :
  (∀ sortKey sortDir,
     (renderTable rows sortKey sortDir).*1 ≡ₚ rows
     ∧ ∀ m, (m, true) ∈ renderTable rows sortKey sortDir → 0 < row_hits m)
  ∧ (∀ key sortDir,
       StronglySorted (λ a b, match sortDir with
                              | asc => (column key a ≤ column key b)%Qc
                              | desc => (column key b ≤ column key a)%Qc
                              end)
         (renderTable rows (ByNumber key) sortDir).*1)
  ∧ ∀ m top, (m, top) ∈ renderTable rows (ByNumber Hits) desc →
      top = true
      ↔ 0 < row_hits m
        ∧ (length (filter (λ r, (row_hits m < row_hits r)%Z) rows) < 3)%nat.
Proof.
  assert (∀ sortKey sortDir,
    (renderTable rows sortKey sortDir).*1
    = Array_sort (compareRows sortKey sortDir) rows) as Hfst.
  { intros sortKey sortDir. unfold renderTable. cbv zeta.
    rewrite <- list_fmap_compose. apply list_fmap_id. }
  assert (∀ key sortDir,
    StronglySorted (λ a b, match sortDir with
                           | asc => (column key a ≤ column key b)%Qc
                           | desc => (column key b ≤ column key a)%Qc
                           end)
      (Array_sort (compareRows (ByNumber key) sortDir) rows)) as Hsorted.
  { intros key sortDir.
    eapply StronglySorted_mono; [|apply Array_sort_sorted].
    - intros a b. apply compareRows_number.
    - intros a b c. rewrite !compareRows_number.
      destruct sortDir; intros; by etrans.
    - intros a b. rewrite !compareRows_number.
      destruct sortDir; intros Hab.
      + by destruct (total Qcle (column key a) (column key b)).
      + by destruct (total Qcle (column key b) (column key a)). }
  split; [|split].
  - intros sortKey sortDir. rewrite Hfst. split; [apply Array_sort_Permutation|].
    intros m Hm. unfold renderTable in Hm. cbv zeta in Hm.
    apply list_elem_of_fmap in Hm as (m' & [= <- Htop] & _).
    symmetry in Htop. apply andb_true_iff in Htop as [_ Hpos]. lia.
  - intros key sortDir. rewrite Hfst. apply Hsorted.
  - intros m top Hm. unfold renderTable in Hm. cbv zeta in Hm.
    apply list_elem_of_fmap in Hm as (m' & [= <- ->] & Hin).
    rewrite andb_true_iff, bool_decide_eq_true, Z.ltb_lt, fmap_take.
    rewrite (and_comm _ (0 < row_hits m)). apply and_iff_compat_l.
    rewrite descending_take.
    + rewrite filter_hits_length.
      by rewrite (Array_sort_Permutation (compareRows (ByNumber Hits) desc) rows).
    + eapply StronglySorted_fmap; [|apply (Hsorted Hits desc)].
      intros a b. simpl. by rewrite <- Z2Qc_inj_le.
    + apply list_elem_of_fmap. by exists m.
Qed.
End TableFacts.

(** *** The further properties on example data *)

Lemma store_round_trip_witness :
  nullish (chainId Examples.newer7) = false
  ∧ store_keyed Examples.storedDB
  ∧ getChain (saveChain Examples.storedDB Examples.newer7) (chainId Examples.newer7)
    = Ok (Some Examples.newer7)
  ∧ NoDup (chainId <$> getAllChains Examples.storedDB).
Proof.
  assert (nullish (chainId Examples.newer7) = false) as Hvalid by reflexivity.
  destruct (store_round_trip Examples.storedDB Examples.newer7 "apiKey" (Str "key")
              Hvalid)
    as (Hsaved & _ & _ & _ & _ & _ & _ & Hdistinct).
  split; [exact Hvalid|]. split; [exact store_keyed_storedDB|].
  split; [exact Hsaved|apply Hdistinct, store_keyed_storedDB].
Defined.

Lemma purge_keeps_window_witness :
  StronglySorted Z.le [0; 10; 70000]
  ∧ Forall (λ t, 65000 - Api.WINDOW_MS ≤ t) (Api.purgeOldTimestamps 65000 [0; 10; 70000]).
Proof.
  assert (StronglySorted Z.le [0; 10; 70000]) as Hs.
  { repeat constructor; lia. }
  split; [exact Hs|].
  destruct (purge_keeps_window 65000 [0; 10; 70000]) as (dropped & _ & _ & Hkept & _).
  exact (Hkept Hs).
Defined.

Lemma dedup_set_exact_witness :
  let pass := extractConsumption Examples.stringToNumber Examples.stringify
                (Examples.descending 100 3) (Num 85) (Num 200) [Num 100] in
  NoDup [Num 100] ∧ NoDup pass.2.
Proof.
  intros pass.
  assert (NoDup [Num 100]) as Hids by apply NoDup_singleton.
  split; [exact Hids|].
  exact (proj2 (proj2 (dedup_set_exact Examples.stringToNumber Examples.stringify
                         (Examples.descending 100 3) (Num 85) (Num 200) [Num 100]))
           Hids).
Defined.

Lemma out_of_range_items_ignored_witness :
  Forall (λ i, inRange Examples.stringToNumber (Num 85) (Num 200) i = false)
    (Examples.descending 80 3)
  ∧ extractConsumption Examples.stringToNumber Examples.stringify
      (Examples.descending 80 3) (Num 85) (Num 200) [Num 100]
    = ({| xanax := ∅; points := ∅ |}, [Num 100]).
Proof.
  assert (Forall (λ i, inRange Examples.stringToNumber (Num 85) (Num 200) i = false)
            (Examples.descending 80 3)) as Hout.
  { repeat constructor. }
  split; [exact Hout|].
  exact (proj2 (out_of_range_items_ignored Examples.stringToNumber Examples.stringify
                  (Examples.descending 80 3) (Num 85) (Num 200) [Num 100]) Hout).
Defined.

Lemma aggregator_conserves_witness :
  let events := feedEvents Examples.stringToNumber Examples.stringify
                  (Num 85) (Num 200) [] Examples.mixedFeed in
  let batch := (extractConsumption Examples.stringToNumber Examples.stringify
                  Examples.mixedFeed (Num 85) (Num 200) []).1 in
  exactEvents events
  ∧ sumOver xanax_count (xanax batch) = totalOf event_uses events
  ∧ sumOver points_amount (points batch) = totalOf event_spend events.
Proof.
  intros events batch.
  assert (exactEvents events) as Hexact.
  { unfold exactEvents. subst events. compute_done. }
  split; [exact Hexact|].
  exact (aggregator_conserves Examples.stringToNumber Examples.stringify
           Examples.mixedFeed (Num 85) (Num 200) [] Hexact).
Defined.

Lemma merge_adds_batch_witness :
  is_Some (Examples.xanaxBatch !! "AJMC")
  ∧ ∃ entry,
      mergeConsumption (consumption Examples.stored7) Examples.xanaxBatch ∅ !! "AJMC"
      = Some entry
      ∧ cons_xanax entry
        = default 0 (cons_xanax <$> consumption Examples.stored7 !! "AJMC")
          + default 0 (xanax_count <$> Examples.xanaxBatch !! "AJMC")
      ∧ cons_points entry
        = default 0 (cons_points <$> consumption Examples.stored7 !! "AJMC")
          + default 0 (points_amount <$> (∅ : gmap string PointsEntry) !! "AJMC").
Proof.
  assert (is_Some (Examples.xanaxBatch !! "AJMC")) as Hin.
  { eexists. reflexivity. }
  split; [exact Hin|].
  exact (proj2 (proj1 (merge_adds_batch (consumption Examples.stored7)
                         Examples.xanaxBatch ∅) "AJMC")
           (or_introl Hin)).
Defined.

Lemma refresh_fails_silently_witness :
  let st' := refreshTick Examples.stringToNumber Examples.stringify
               Examples.keyRejected true Examples.refreshing in
  (∃ e, fetchCurrentChain Examples.keyRejected = Err e)
  ∧ app_db st' = app_db Examples.refreshing
  ∧ refreshTimer st' = refreshTimer Examples.refreshing
  ∧ screen st' = screen Examples.refreshing
  ∧ shownError st' = shownError Examples.refreshing
  ∧ isRefreshing st' = false.
Proof.
  intros st'.
  assert (∃ e, fetchCurrentChain Examples.keyRejected = Err e) as Hfail.
  { eexists. reflexivity. }
  split; [exact Hfail|].
  exact (proj2 (refresh_fails_silently Examples.stringToNumber Examples.stringify
                  Examples.keyRejected true Examples.refreshing)
           eq_refl eq_refl (ex_intro _ Examples.stored7 eq_refl) (or_introl Hfail)).
Defined.

Lemma member_rows_witness :
  ∃ row,
    buildMemberRows Examples.someHits (consumption Examples.stored7) !! "AJMC" = Some row
    ∧ row_id row = "AJMC"
    ∧ row_hits row = default 0 (hit_hits <$> Examples.someHits !! "AJMC")
    ∧ row_respect row = default 0 (hit_respect <$> Examples.someHits !! "AJMC")
    ∧ row_xanax row
      = default 0 (cons_xanax <$> consumption Examples.stored7 !! "AJMC")
    ∧ row_points row
      = default 0 (cons_points <$> consumption Examples.stored7 !! "AJMC").
Proof.
  destruct (buildMemberRows Examples.someHits (consumption Examples.stored7) !! "AJMC")
    as [row|] eqn:Hrow; [|exfalso; vm_compute in Hrow; discriminate].
  exists row. split; [reflexivity|].
  exact (proj1 (proj2 (member_rows Examples.someHits (consumption Examples.stored7)))
           "AJMC" row Hrow).
Defined.

Lemma top_hits_highlight_witness :
  let table := renderTable Examples.localeCompare Examples.divide
                 Examples.tiedRows (ByNumber Hits) desc in
  (Examples.memberRow "e" 7, true) ∈ table
  ∧ 0 < row_hits (Examples.memberRow "e" 7)
  ∧ (length (filter (λ r, (row_hits (Examples.memberRow "e" 7) < row_hits r)%Z)
               Examples.tiedRows) < 3)%nat.
Proof.
  intros table.
  assert ((Examples.memberRow "e" 7, true) ∈ table) as Hshown.
  { apply (list_elem_of_lookup_2 _ 3%nat). vm_compute. reflexivity. }
  split; [exact Hshown|].
  exact (proj1 (proj2 (proj2 (top_hits_highlight Examples.localeCompare Examples.divide
                                Examples.tiedRows)) _ _ Hshown) eq_refl).
Defined.
